(** * mediasoup worker: RTP / RTCP wire codecs, channel socket and room routing

    A shallow embedding of the worker sources

      - RTC/RtpPacket.cpp        (RtpPacket::Parse, RtpPacket::Serialize)
      - RTC/RTCP/Bye.cpp         (ByePacket::Parse, ByePacket::Serialize)
      - handles/UnixStreamSocket.cpp
      - RTC/Room.h               (the two routing maps)

    followed by the properties that the specification states about them.

    Conventions.  Buffers are lists of bytes, C pointers into a buffer are
    offsets into that list ([None] is [nullptr]), [size_t] and the other
    integer types are [Z] with their wrap-around written where the code can
    reach it, and the calls a method makes into libuv or into the owner of
    an object are recorded in a log. *)

From Stdlib Require Import ZArith List Bool Lia.
From Stdlib Require Import Strings.Byte.
From stdpp Require Import base option list gmap sets.
Import ListNotations.

(* ===================================================================== *)
(** ** Byte utilities (Utils::Byte) and raw memory helpers               *)
(* ===================================================================== *)

Module Utils.
Local Open Scope Z_scope.

(** The value of a byte as an unsigned integer. *)
Definition u8 (b : byte) : Z := Z.of_N (Byte.to_N b).

(** Conversion of an integer to [uint8_t] (reduction modulo 256). *)
Definition to_u8 (z : Z) : byte :=
  match Byte.of_N (Z.to_N (z mod 256)) with
  | Some b => b
  | None => x00
  end.

(** [data[i]].  A read outside the list is undefined behaviour in the
    source; the model returns [x00] there. *)
Definition byte_at (data : list byte) (i : Z) : byte :=
  if i <? 0 then x00 else default x00 (data !! Z.to_nat i).

(** Modelled from the spec: Utils.h is not part of the sources; section
    4.A describes the helpers as reads of 1/2/3/4 bytes in network byte
    order at (buffer, offset), without bounds checks. *)
Definition Get1Byte (data : list byte) (i : Z) : Z := u8 (byte_at data i).

Definition Get2Bytes (data : list byte) (i : Z) : Z :=
  Z.lor (Z.shiftl (Get1Byte data i) 8) (Get1Byte data (i + 1)).

Definition Get4Bytes (data : list byte) (i : Z) : Z :=
  Z.lor (Z.shiftl (Get1Byte data i) 24)
    (Z.lor (Z.shiftl (Get1Byte data (i + 1)) 16)
       (Z.lor (Z.shiftl (Get1Byte data (i + 2)) 8)
              (Get1Byte data (i + 3)))).

(** [ntohs] applied to a 16-bit field stored at offset [i]: the value of
    the field read in network byte order. *)
Definition ntohs_at (data : list byte) (i : Z) : Z := Get2Bytes data i.

(** [std::memcpy(dst + d, src + s, n)] on list-backed buffers.  Cells of
    [dst] in [d, d+n) receive the corresponding cells of [src]. *)
Definition memcpy (dst : list byte) (d : Z) (src : list byte) (s n : Z)
  : list byte :=
  imap (fun k b =>
          let i := Z.of_nat k in
          if (d <=? i) && (i <? d + n) then byte_at src (s + (i - d)) else b)
       dst.

(** [buf[i] = v]. *)
Definition store (buf : list byte) (i : Z) (v : byte) : list byte :=
  if i <? 0 then buf else <[Z.to_nat i := v]> buf.

(** [new uint8_t[n]]: [n] cells whose contents are whatever the allocator
    hands out; [fresh k] is the byte found in cell [k]. *)
Definition new_array (fresh : Z -> byte) (n : Z) : list byte :=
  map (fun k => fresh (Z.of_nat k)) (seq 0 (Z.to_nat n)).

(** [size_t] arithmetic is modulo 2^64. *)
Definition size_t (z : Z) : Z := z mod 2 ^ 64.
End Utils.

(* ===================================================================== *)
(** ** RTC::RtpPacket                                                    *)
(* ===================================================================== *)

Module RtpPacket.
Import Utils.
Local Open Scope Z_scope.

(** [sizeof(Header)]: the fixed RTP header. *)
Definition sizeof_Header : Z := 12.

(** Modelled from the spec: RtpPacket.h (struct Header, struct
    ExtensionHeader, IsRtp) is not part of the sources.  The spec fixes a
    12-byte header laid out as in RFC 3550 section 5.1: the first byte
    holds version (2 bits), padding (1 bit), extension (1 bit) and CSRC
    count (4 bits).  [h] is the offset of the header in [data]. *)
Definition version (data : list byte) (h : Z) : Z :=
  Z.shiftr (Get1Byte data h) 6.
Definition padding (data : list byte) (h : Z) : bool :=
  Z.testbit (Get1Byte data h) 5.
Definition extension (data : list byte) (h : Z) : bool :=
  Z.testbit (Get1Byte data h) 4.
Definition csrc_count (data : list byte) (h : Z) : Z :=
  Z.land (Get1Byte data h) 15.

(** Modelled from the spec: the extension header is a 16-bit profile id
    followed by a 16-bit length counted in 32-bit words; [e] is the offset
    of the extension header. *)
Definition extension_length (data : list byte) (e : Z) : Z :=
  ntohs_at data (e + 2).

(** Modelled from the spec: IsRtp, section 4.B step 1: [len >= 12] and
    [(buf[0] >> 6) == 2]. *)
Definition IsRtp (data : list byte) : bool :=
  (sizeof_Header <=? Z.of_nat (List.length data)) && (version data 0 =? 2).

(** The packet object: pointers are offsets into [raw]. *)
Record RtpPacket := mkRtpPacket {
  header : Z;
  csrcList : option Z;
  extensionHeader : option Z;
  payload : option Z;
  payloadLength : Z;
  payloadPadding : Z;
  raw : list byte;
  length : Z;
  isSerialized : bool
}.

(** Reasons for [return nullptr] (the MS_WARN_TAG texts of Parse). *)
Inductive discarded :=
| NotRtp
| NoSpaceForCsrcList
| NoSpaceForExtensionHeader
| NoSpaceForExtensionValue
| NoSpaceForPaddingByte
| PaddingByteZero
| PaddingGreaterThanPayload.

(** The two MS_ASSERTs of Parse. *)
Inductive assertion :=
| PayloadHasNegativeSize
| ComputedLengthMismatch.

Inductive parsed :=
| Packet (p : RtpPacket)
| Nullptr (why : discarded)
| ParseAbort (a : assertion).

(** The constructor: stores its arguments, and points [csrcList] just
    after the fixed header when the header announces CSRCs. *)
Definition new_RtpPacket (header : Z) (extensionHeader payload : option Z)
    (payloadLength payloadPadding : Z) (raw : list byte) (length : Z)
  : RtpPacket :=
  {| header := header;
     csrcList := if csrc_count raw header =? 0 then None
                 else Some (0 + sizeof_Header);
     extensionHeader := extensionHeader;
     payload := payload;
     payloadLength := payloadLength;
     payloadPadding := payloadPadding;
     raw := raw;
     length := length;
     isSerialized := false |}.

(** Lines 73-113 of Parse: payload, padding check, final assertion. *)
Definition Parse_payload (data : list byte) (len csrc_list_size : Z)
    (extensionHeader : option Z) (extension_value_size pos : Z) : parsed :=
  let header := 0 in
  let payload := Some pos in
  (* [len - pos] is only used once the assertion [len >= pos] passed. *)
  let payloadLength := len - pos in
  if len <? pos then ParseAbort PayloadHasNegativeSize else
  let check (payloadLength payloadPadding : Z) : parsed :=
    let payload := if payloadLength =? 0 then None else payload in
    if len =? sizeof_Header + csrc_list_size
              + (match extensionHeader with
                 | Some _ => 4 + extension_value_size
                 | None => 0
                 end)
              + payloadLength + payloadPadding
    then Packet (new_RtpPacket header extensionHeader payload
                   payloadLength payloadPadding data len)
    else ParseAbort ComputedLengthMismatch in
  if padding data header then
    if payloadLength =? 0 then Nullptr NoSpaceForPaddingByte else
    let payloadPadding := Get1Byte data (len - 1) in
    if payloadPadding =? 0 then Nullptr PaddingByteZero else
    if payloadLength <? payloadPadding then Nullptr PaddingGreaterThanPayload
    else check (payloadLength - payloadPadding) payloadPadding
  else check payloadLength 0.

(** Lines 43-71 of Parse: the header extension. *)
Definition Parse_extension (data : list byte) (len csrc_list_size pos : Z)
  : parsed :=
  let header := 0 in
  if extension data header then
    if len <? pos + 4 then Nullptr NoSpaceForExtensionHeader else
    let extensionHeader := pos in
    let extension_value_size := extension_length data extensionHeader * 4 in
    if len <? pos + 4 + extension_value_size
    then Nullptr NoSpaceForExtensionValue
    else Parse_payload data len csrc_list_size (Some extensionHeader)
           extension_value_size (pos + 4 + extension_value_size)
  else Parse_payload data len csrc_list_size None 0 pos.

(** RtpPacket::Parse(data, len), with [len] the length of [data]. *)
Definition Parse (data : list byte) : parsed :=
  let len := Z.of_nat (List.length data) in
  if negb (IsRtp data) then Nullptr NotRtp else
  let header := 0 in
  let pos := sizeof_Header in
  if csrc_count data header =? 0 then
    Parse_extension data len 0 pos
  else
    let csrc_list_size := csrc_count data header * 4 in
    if len <? pos + csrc_list_size then Nullptr NoSpaceForCsrcList
    else Parse_extension data len csrc_list_size (pos + csrc_list_size).

Inductive serialized :=
| Serialized (p : RtpPacket)
| SerializeAbort.

(** RtpPacket::Serialize().  [fresh] is the content of the storage that
    [new uint8_t[length]] returns.  When [isSerialized] is already set the
    source deletes the old buffer and then still reads through the old
    pointers; the model reads the old contents. *)
Definition Serialize (fresh : Z -> byte) (p : RtpPacket) : serialized :=
  let old := raw p in
  let extension_value_size :=
    match extensionHeader p with
    | Some e => extension_length old e * 4
    | None => 0
    end in
  let length := sizeof_Header in
  let length :=
    match csrcList p with
    | Some _ => length + csrc_count old (header p) * 4
    | None => length
    end in
  let length :=
    match extensionHeader p with
    | Some _ => length + (4 + extension_value_size)
    | None => length
    end in
  let length := length + payloadLength p in
  let length := length + payloadPadding p in
  let raw := new_array fresh length in
  let raw := memcpy raw 0 old (header p) sizeof_Header in
  let header := 0 in
  let pos := sizeof_Header in
  let '(raw, csrcList, pos) :=
    match csrcList p with
    | Some c =>
        (memcpy raw pos old c (csrc_count raw header * 4),
         Some pos, pos + csrc_count raw header * 4)
    | None => (raw, None, pos)
    end in
  let '(raw, extensionHeader, pos) :=
    match extensionHeader p with
    | Some e =>
        (memcpy raw pos old e (4 + extension_value_size),
         Some pos, pos + (4 + extension_value_size))
    | None => (raw, None, pos)
    end in
  let '(raw, payload, pos) :=
    match payload p with
    | Some q =>
        (memcpy raw pos old q (payloadLength p),
         Some pos, pos + payloadLength p)
    | None => (raw, None, pos)
    end in
  let '(raw, pos) :=
    if payloadPadding p =? 0 then (raw, pos)
    else (store raw (pos + payloadPadding p - 1) (to_u8 (payloadPadding p)),
          pos + payloadPadding p) in
  if pos =? length then
    Serialized {| header := header;
                  csrcList := csrcList;
                  extensionHeader := extensionHeader;
                  payload := payload;
                  payloadLength := payloadLength p;
                  payloadPadding := payloadPadding p;
                  raw := raw;
                  length := length;
                  isSerialized := true |}
  else SerializeAbort.

(** The bytes that Serialize leaves in the packet, as a caller sees them. *)
Definition GetRaw (p : RtpPacket) : list byte := raw p.
End RtpPacket.

(** The layout of an RTP packet as the specification words it (sections 3
    and 4.B): header, CSRC bytes, extension bytes, then the region holding
    payload and padding.  These follow the specification, not the code, and
    are what the properties of Parse are stated against. *)
Module RtpLayout.
Import Utils RtpPacket.
Local Open Scope Z_scope.

(** [total_len]: the length of the received buffer. *)
Definition total_len (data : list byte) : Z := Z.of_nat (List.length data).

(** [csrc_bytes = csrc_count x 4]. *)
Definition csrc_bytes (data : list byte) : Z := 4 * csrc_count data 0.

(** [ext_bytes]: the 4-byte extension header and its value, counted in
    32-bit words by the length field, when the extension flag is set. *)
Definition ext_bytes (data : list byte) : Z :=
  if extension data 0
  then 4 + 4 * extension_length data (12 + csrc_bytes data)
  else 0.

(** Where the region holding payload and padding starts. *)
Definition payload_offset (data : list byte) : Z :=
  12 + csrc_bytes data + ext_bytes data.

(** Steps 1 to 3 of section 4.B: the buffer is RTP, holds the announced
    CSRC list, and holds the announced extension. *)
Definition header_fits (data : list byte) : bool :=
  IsRtp data
  && (12 + csrc_bytes data <=? total_len data)
  && (if extension data 0
      then (12 + csrc_bytes data + 4 <=? total_len data)
           && (payload_offset data <=? total_len data)
      else true).

(** The size of the region after header, CSRC list and extension. *)
Definition region_size (data : list byte) : Z :=
  total_len data - payload_offset data.

(** The last byte of the buffer, which holds the padding count when the
    padding flag is set. *)
Definition last_byte (data : list byte) : Z :=
  Get1Byte data (total_len data - 1).

(** The packet view that Parse builds for a payload of [plen] bytes
    followed by [pad] padding bytes. *)
Definition view (data : list byte) (plen pad : Z) : RtpPacket :=
  new_RtpPacket 0
    (if extension data 0 then Some (12 + csrc_bytes data) else None)
    (if plen =? 0 then None else Some (payload_offset data))
    plen pad data (total_len data).

(** The round trip as the specification states it: serializing the
    packet parsed from [b], untouched, gives back [b]. *)
Definition serialize_parse_identity (heap : Z -> byte) (b : list byte)
  : Prop :=
  forall p, Parse b = Packet p ->
            exists p', Serialize heap p = Serialized p' /\ GetRaw p' = b.
End RtpLayout.


(* ===================================================================== *)
(** ** RTC::RTCP::ByePacket                                              *)
(* ===================================================================== *)

Module ByePacket.
Import Utils.
Local Open Scope Z_scope.

(** [sizeof(Packet::CommonHeader)]. *)
Definition sizeof_CommonHeader : Z := 4.

(** Modelled from the spec: RTC/RTCP/Packet.h (struct CommonHeader) is not
    part of the sources.  Section 4.C gives the common header as 2 bits
    version, 1 bit padding, 5 bits item-count, 8 bits packet type and a
    16-bit length: [count] is the low five bits of the first byte. *)
Definition count (data : list byte) : Z := Z.land (Get1Byte data 0) 31.

(** The packet object: the SSRC vector and the reason string. *)
Record ByePacket := mkByePacket {
  ssrcs : list Z;
  reason : list byte
}.

Definition new_ByePacket : ByePacket := {| ssrcs := []; reason := [] |}.

Definition AddSsrc (ssrc : Z) (p : ByePacket) : ByePacket :=
  {| ssrcs := ssrcs p ++ [ssrc]; reason := reason p |}.

Definition SetReason (r : list byte) (p : ByePacket) : ByePacket :=
  {| ssrcs := ssrcs p; reason := r |}.

(** [std::string((char* )data + offset, length)]. *)
Definition string_at (data : list byte) (offset length : Z) : list byte :=
  map (fun k => byte_at data (offset + Z.of_nat k)) (seq 0 (Z.to_nat length)).

(** The loop [while ((count--) && (len - offset > 0))] of Parse, by
    recursion on the value of [count] when the condition is evaluated.
    The result is [None] for [return nullptr], and otherwise the values of
    [count] and [offset] and the packet when the loop is left.  [count] is
    a [uint8_t]: the post-decrement that finds it at 0 leaves it at 255. *)
Fixpoint Parse_loop (data : list byte) (len : Z) (count : nat) (offset : Z)
    (packet : ByePacket) : option (Z * Z * ByePacket) :=
  match count with
  | O => Some (255, offset, packet)
  | S count' =>
      if 0 <? size_t (len - offset) then
        if size_t (len - offset) <? 4 then None
        else Parse_loop data len count' (size_t (offset + 4))
               (AddSsrc (Get4Bytes data offset) packet)
      else Some (Z.of_nat count', offset, packet)
  end.

(** ByePacket::Parse(data, len), with [len] the length of [data].  The
    read of the reason length at [data + offset] is not bounds-checked in
    the source. *)
Definition Parse (data : list byte) : option ByePacket :=
  let len := Z.of_nat (List.length data) in
  match Parse_loop data len (Z.to_nat (count data)) sizeof_CommonHeader
          new_ByePacket with
  | None => None
  | Some (count, offset, packet) =>
      if count =? 0 then
        let length := Get1Byte data offset in
        if 1 + length <=? size_t (len - offset)
        then Some (SetReason (string_at data offset length) packet)
        else Some packet
      else Some packet
  end.

(** The output argument [uint8_t* data] of Serialize: the memory that
    starts at the pointer, addressed by offset. *)
Definition buffer := Z -> byte.

Definition poke (data : buffer) (i : Z) (v : byte) : buffer :=
  fun j => if j =? i then v else data j.

(** Modelled from the spec: Utils::Byte::Set1Byte, the 1-byte write of
    section 4.A. *)
Definition Set1Byte (data : buffer) (offset value : Z) : buffer :=
  poke data offset (to_u8 value).

(** [std::memcpy(data, &ssrc, sizeof(uint32_t))]: the object representation
    of a [uint32_t] on a little-endian host, copied to the start of
    [data]. *)
Definition memcpy_uint32 (data : buffer) (ssrc : Z) : buffer :=
  poke (poke (poke (poke data 0 (to_u8 ssrc))
                         1 (to_u8 (Z.shiftr ssrc 8)))
                   2 (to_u8 (Z.shiftr ssrc 16)))
             3 (to_u8 (Z.shiftr ssrc 24)).

(** The loop [for (i = 0; i < padding; i++) data[offset+i] = 0]. *)
Definition zero_padding (data : buffer) (offset padding : Z) : buffer :=
  fold_left (fun data i => poke data (size_t (offset + Z.of_nat i)) x00)
    (seq 0 (Z.to_nat padding)) data.

Section Serialize.
(** Packet::Serialize (RTC/RTCP/Packet.cpp) is not part of the sources:
    it fills the common header and returns the offset that follows it.
    It is a parameter of the embedding. *)
Variable Packet_Serialize : ByePacket -> buffer -> buffer * Z.

(** The offset reached after the SSRC loop. *)
Definition Serialize_ssrcs (p : ByePacket) (data : buffer) (offset : Z)
  : buffer * Z :=
  fold_left
    (fun '(data, offset) ssrc =>
       (memcpy_uint32 data ssrc, size_t (offset + 4)))
    (ssrcs p) (data, offset).

(** The state before the padding is written: common header, SSRCs and
    the reason length field. *)
Definition Serialize_fields (p : ByePacket) (data : buffer) : buffer * Z :=
  let '(data, offset) := Packet_Serialize p data in
  let '(data, offset) := Serialize_ssrcs p data offset in
  match reason p with
  | [] => (data, offset)
  | _ :: _ =>
      let length := Z.of_nat (List.length (reason p)) in
      let data := Set1Byte data offset length in
      let offset := size_t (offset + 1) in
      let offset := size_t (offset + length) in
      (data, offset)
  end.

(** ByePacket::Serialize(data): the buffer after the call and the
    returned size. *)
Definition Serialize (p : ByePacket) (data : buffer) : buffer * Z :=
  let '(data, offset) := Serialize_fields p data in
  let padding := Z.land (size_t (- offset)) 3 in
  let data := zero_padding data offset padding in
  (data, size_t (offset + padding)).
End Serialize.

(** Modelled from the spec: a stand-in for Packet::Serialize used to run
    Serialize on examples.  It writes the 4-byte common header of section
    4.C (version 2, no padding, the item count, packet type 203, the
    length in 32-bit words minus one) and returns [sizeof(CommonHeader)]. *)
Definition Packet_Serialize_header (p : ByePacket) (data : buffer)
  : buffer * Z :=
  let size :=
    4 + 4 * Z.of_nat (List.length (ssrcs p))
      + (match reason p with
         | [] => 0
         | _ :: _ => 1 + Z.of_nat (List.length (reason p))
         end) in
  let words := (size + 3) / 4 - 1 in
  let data :=
    poke data 0
      (to_u8 (Z.lor 128 (Z.land (Z.of_nat (List.length (ssrcs p))) 31))) in
  let data := poke data 1 (to_u8 203) in
  let data := poke data 2 (to_u8 (Z.shiftr words 8)) in
  let data := poke data 3 (to_u8 words) in
  (data, sizeof_CommonHeader).

(** The size before padding in the words of the specification: common
    header, 4 bytes per SSRC, and a length byte plus the reason when there
    is one ([h] is the size of the common header part). *)
Definition unpadded_size (h : Z) (p : ByePacket) : Z :=
  h + 4 * Z.of_nat (List.length (ssrcs p))
    + (match reason p with
       | [] => 0
       | _ :: _ => 1 + Z.of_nat (List.length (reason p))
       end).
End ByePacket.

(* ===================================================================== *)
(** ** UnixStreamSocket (handles/UnixStreamSocket.cpp)                   *)
(* ===================================================================== *)

Module UnixStreamSocket.
Import Utils.
Local Open Scope Z_scope.

(** libuv status codes, with the values of uv-errno.h on Linux. *)
Definition UV_EOF : Z := -4095.
Definition UV_EAGAIN : Z := -11.
Definition UV_EPIPE : Z := -32.
Definition UV_ENOSYS : Z := -38.
Definition UV_ECONNRESET : Z := -104.
Definition UV_ENOTCONN : Z := -107.
Definition UV_ECANCELED : Z := -125.

(** The fields of the object that the methods read or write. *)
Record UnixStreamSocket := mkSocket {
  bufferSize : Z;
  buffer : option (list byte);
  bufferDataLen : Z;
  isClosing : bool;
  isClosedByPeer : bool;
  hasError : bool
}.

Definition set_buffer (b : option (list byte)) (s : UnixStreamSocket) :=
  mkSocket (bufferSize s) b (bufferDataLen s) (isClosing s)
    (isClosedByPeer s) (hasError s).
Definition set_bufferDataLen (n : Z) (s : UnixStreamSocket) :=
  mkSocket (bufferSize s) (buffer s) n (isClosing s)
    (isClosedByPeer s) (hasError s).
Definition set_isClosing (b : bool) (s : UnixStreamSocket) :=
  mkSocket (bufferSize s) (buffer s) (bufferDataLen s) b
    (isClosedByPeer s) (hasError s).
Definition set_isClosedByPeer (b : bool) (s : UnixStreamSocket) :=
  mkSocket (bufferSize s) (buffer s) (bufferDataLen s) (isClosing s)
    b (hasError s).
Definition set_hasError (b : bool) (s : UnixStreamSocket) :=
  mkSocket (bufferSize s) (buffer s) (bufferDataLen s) (isClosing s)
    (isClosedByPeer s) b.

(** The object after a successful constructor: nothing is allocated and
    no flag is set (the member initialisers are in UnixStreamSocket.h,
    which is not part of the sources; the constructor and the destructor
    rely on [buffer] starting as [nullptr]). *)
Definition new_UnixStreamSocket (bufferSize : Z) : UnixStreamSocket :=
  mkSocket bufferSize None 0 false false false.

(** What a method does to the outside: calls into libuv on the handle and
    calls to the virtual methods implemented by the owner.  Logging
    (MS_ERROR_STD) is not recorded. *)
Inductive call :=
| uv_read_stop
| uv_shutdown
| uv_close
| uv_try_write (data : list byte)
| uv_write (store : list byte)
| userOnUnixStreamRead
| userOnUnixStreamSocketClosed (is_closed_by_peer : bool)
| delete_this.

(** What libuv answers to the calls made during one method invocation. *)
Record uv_results := mkResults {
  read_stop_err : Z;
  shutdown_err : Z;
  try_write_written : Z;
  write_err : Z
}.

(** All libuv calls succeed and uv_try_write accepts [n] bytes. *)
Definition uv_ok (n : Z) : uv_results := mkResults 0 0 n 0.

(** A method returns with a new object state, or runs into MS_ABORT. *)
Inductive outcome :=
| Returns (s : UnixStreamSocket) (calls : list call)
| Aborts (calls : list call).

(** The calls of [o] happen after [pre]. *)
Definition after (pre : list call) (o : outcome) : outcome :=
  match o with
  | Returns s calls => Returns s (pre ++ calls)
  | Aborts calls => Aborts (pre ++ calls)
  end.

(** UnixStreamSocket::Close(). *)
Definition Close (uv : uv_results) (s : UnixStreamSocket) : outcome :=
  if isClosing s then Returns s [] else
  let s := set_isClosing true s in
  if negb (read_stop_err uv =? 0) then Aborts [uv_read_stop] else
  if negb (hasError s) && negb (isClosedByPeer s) then
    if negb (shutdown_err uv =? 0) then Aborts [uv_read_stop; uv_shutdown]
    else Returns s [uv_read_stop; uv_shutdown]
  else Returns s [uv_read_stop; uv_close].

(** The conversion [(int)len] of a [size_t]. *)
Definition int_of_size_t (n : Z) : Z :=
  let r := n mod 2 ^ 32 in
  if r <? 2 ^ 31 then r else r - 2 ^ 32.

(** The tail of Write once [written] bytes went out directly: the rest is
    copied into a UvWriteData and handed to uv_write. *)
Definition Write_pending (uv : uv_results) (data : list byte) (written : Z)
    (s : UnixStreamSocket) : outcome :=
  let len := Z.of_nat (List.length data) in
  let pending_len := size_t (len - written) in
  let store :=
    map (fun k => byte_at data (written + Z.of_nat k))
        (seq 0 (Z.to_nat pending_len)) in
  if negb (write_err uv =? 0)
  then Aborts [uv_try_write data; uv_write store]
  else Returns s [uv_try_write data; uv_write store].

(** UnixStreamSocket::Write(data, len), with [len] the length of [data]. *)
Definition Write (uv : uv_results) (data : list byte) (s : UnixStreamSocket)
  : outcome :=
  let len := Z.of_nat (List.length data) in
  if isClosing s then Returns s [] else
  if len =? 0 then Returns s [] else
  let written := try_write_written uv in
  if written =? int_of_size_t len then Returns s [uv_try_write data]
  else if (written =? UV_EAGAIN) || (written =? UV_ENOSYS)
       then Write_pending uv data 0 s
  else if written <? 0 then after [uv_try_write data] (Close uv s)
  else Write_pending uv data written s.

(** The [uv_buf_t] filled by the allocation callback; [base] is an offset
    into the receive buffer. *)
Record uv_buf_t := mkBuf { base : Z; len : Z }.

(** UnixStreamSocket::onUvReadAlloc(suggested_size, buf).  [heap] is the
    content of the storage that [new uint8_t[bufferSize]] returns. *)
Definition onUvReadAlloc (heap : Z -> byte) (suggested_size : Z)
    (s : UnixStreamSocket) : UnixStreamSocket * uv_buf_t :=
  let s := match buffer s with
           | None => set_buffer (Some (new_array heap (bufferSize s))) s
           | Some _ => s
           end in
  let base := bufferDataLen s in
  if bufferDataLen s <? bufferSize s
  then (s, mkBuf base (bufferSize s - bufferDataLen s))
  else (s, mkBuf base 0).

(** UnixStreamSocket::onUvRead(nread, buf). *)
Definition onUvRead (uv : uv_results) (nread : Z) (s : UnixStreamSocket)
  : outcome :=
  if nread =? 0 then Returns s [] else
  if 0 <? nread then
    Returns (set_bufferDataLen (size_t (bufferDataLen s + nread)) s)
            [userOnUnixStreamRead]
  else if (nread =? UV_EOF) || (nread =? UV_ECONNRESET) then
    Close uv (set_isClosedByPeer true s)
  else
    Close uv (set_hasError true s).

(** UnixStreamSocket::onUvWriteError(error). *)
Definition onUvWriteError (uv : uv_results) (error : Z)
    (s : UnixStreamSocket) : outcome :=
  if isClosing s then Returns s [] else
  if (error =? UV_EPIPE) || (error =? UV_ENOTCONN)
  then Close uv s
  else Close uv (set_hasError true s).

(** The static callback on_write(req, status): the socket only hears of
    a completed write when it failed. *)
Definition on_write (uv : uv_results) (status : Z) (s : UnixStreamSocket)
  : outcome :=
  if status =? 0 then Returns s [] else onUvWriteError uv status s.

(** UnixStreamSocket::onUvShutdown(req, status). *)
Definition onUvShutdown (status : Z) (s : UnixStreamSocket) : outcome :=
  Returns s [uv_close].

(** UnixStreamSocket::onUvClosed(). *)
Definition onUvClosed (s : UnixStreamSocket) : outcome :=
  Returns s [userOnUnixStreamSocketClosed (isClosedByPeer s); delete_this].

(** *** The socket on the event loop

    The methods above run on one libuv loop.  The loop state below keeps,
    next to the object, what libuv has been asked to do; an event is a
    call by the owner or a callback from libuv, and libuv only delivers a
    callback that was requested: reads while reading is active (from the
    constructor's uv_read_start until uv_read_stop or uv_close), one
    completion per uv_write, one on_shutdown per uv_shutdown, one on_close
    per uv_close.  The requests are counted: libuv knows nothing of the
    isClosing flag nor of [delete this], so a request made twice is
    answered twice, and a callback still pending when the object is
    deleted runs on the deleted object (the model then runs the method on
    the state the object had).  The owner makes no call on an object it
    was told is closed, and nothing happens after the process aborted.
    The notifications to the owner are the last statement of the methods
    that make them, so a call that the owner makes from inside one is an
    owner event that follows the callback. *)
Record loop := mkLoop {
  socket : UnixStreamSocket;
  reading : bool;
  shutdown_req : nat;
  close_req : nat;
  write_reqs : nat;
  deleted : bool;
  aborted : bool;
  trace : list call
}.

Definition start (bufferSize : Z) : loop :=
  mkLoop (new_UnixStreamSocket bufferSize) true 0 0 0 false false [].

(** The effect of one recorded call on what libuv has pending. *)
Definition perform (l : loop) (c : call) : loop :=
  let l := mkLoop (socket l) (reading l) (shutdown_req l) (close_req l)
             (write_reqs l) (deleted l) (aborted l) (trace l ++ [c]) in
  match c with
  | uv_read_stop =>
      mkLoop (socket l) false (shutdown_req l) (close_req l)
        (write_reqs l) (deleted l) (aborted l) (trace l)
  | uv_shutdown =>
      mkLoop (socket l) (reading l) (S (shutdown_req l)) (close_req l)
        (write_reqs l) (deleted l) (aborted l) (trace l)
  | uv_close =>
      mkLoop (socket l) false (shutdown_req l) (S (close_req l))
        (write_reqs l) (deleted l) (aborted l) (trace l)
  | uv_write _ =>
      mkLoop (socket l) (reading l) (shutdown_req l) (close_req l)
        (S (write_reqs l)) (deleted l) (aborted l) (trace l)
  | delete_this =>
      mkLoop (socket l) (reading l) (shutdown_req l) (close_req l)
        (write_reqs l) true (aborted l) (trace l)
  | uv_try_write _ | userOnUnixStreamRead
  | userOnUnixStreamSocketClosed _ => l
  end.

Definition commit (l : loop) (o : outcome) : loop :=
  match o with
  | Returns s calls =>
      let l := fold_left perform calls l in
      mkLoop s (reading l) (shutdown_req l) (close_req l)
        (write_reqs l) (deleted l) (aborted l) (trace l)
  | Aborts calls =>
      let l := fold_left perform calls l in
      mkLoop (socket l) (reading l) (shutdown_req l) (close_req l)
        (write_reqs l) (deleted l) true (trace l)
  end.

Inductive event :=
| OwnerClose
| OwnerWrite (data : list byte)
| ReadCb (nread : Z)
| WriteCb (status : Z)
| ShutdownCb (status : Z)
| CloseCb.

(** One event, with libuv's answers [uv] to the calls made while it is
    handled; [None] when the event cannot happen in state [l]. *)
Definition step (uv : uv_results) (e : event) (l : loop) : option loop :=
  if aborted l then None else
  match e with
  | OwnerClose =>
      if deleted l then None else Some (commit l (Close uv (socket l)))
  | OwnerWrite data =>
      if deleted l then None else Some (commit l (Write uv data (socket l)))
  | ReadCb nread =>
      if reading l then Some (commit l (onUvRead uv nread (socket l)))
      else None
  | WriteCb status =>
      match write_reqs l with
      | O => None
      | S n =>
          let l := mkLoop (socket l) (reading l) (shutdown_req l)
                     (close_req l) n (deleted l) (aborted l) (trace l) in
          Some (commit l (on_write uv status (socket l)))
      end
  | ShutdownCb status =>
      match shutdown_req l with
      | O => None
      | S n =>
          let l := mkLoop (socket l) (reading l) n (close_req l)
                     (write_reqs l) (deleted l) (aborted l) (trace l) in
          Some (commit l (onUvShutdown status (socket l)))
      end
  | CloseCb =>
      match close_req l with
      | O => None
      | S n =>
          let l := mkLoop (socket l) (reading l) (shutdown_req l) n
                     (write_reqs l) (deleted l) (aborted l) (trace l) in
          Some (commit l (onUvClosed (socket l)))
      end
  end.

Fixpoint run (evs : list (uv_results * event)) (l : loop) : option loop :=
  match evs with
  | [] => Some l
  | (uv, e) :: evs =>
      match step uv e l with
      | Some l => run evs l
      | None => None
      end
  end.

(** The arguments of the closed notifications found in a trace. *)
Fixpoint closed_notifications (calls : list call) : list bool :=
  match calls with
  | [] => []
  | userOnUnixStreamSocketClosed b :: calls => b :: closed_notifications calls
  | _ :: calls => closed_notifications calls
  end.

(** What, in the words of the specification, makes the socket close: a
    Close call by the owner, a disconnect of the peer, or an I/O error (a
    failed read, a failed write completion, a failed direct write of a
    non-empty message; UV_EAGAIN and UV_ENOSYS are not failures, and a
    result equal to [(int)len] counts as a complete write).  [Some true]
    stands for the disconnect of the peer. *)
Definition trigger (ue : uv_results * event) : option bool :=
  let '(uv, e) := ue in
  match e with
  | OwnerClose => Some false
  | OwnerWrite data =>
      let len := Z.of_nat (List.length data) in
      let written := try_write_written uv in
      if negb (len =? 0) && (written <? 0)
         && negb (written =? UV_EAGAIN) && negb (written =? UV_ENOSYS)
         && negb (written =? int_of_size_t len)
      then Some false else None
  | ReadCb nread =>
      if (nread =? UV_EOF) || (nread =? UV_ECONNRESET) then Some true
      else if nread <? 0 then Some false
      else None
  | WriteCb status => if status =? 0 then None else Some false
  | ShutdownCb _ | CloseCb => None
  end.

Fixpoint first_trigger (evs : list (uv_results * event)) : option bool :=
  match evs with
  | [] => None
  | ue :: evs =>
      match trigger ue with
      | Some b => Some b
      | None => first_trigger evs
      end
  end.

(** Where a socket stands on its way from open to deleted, given the
    first closing trigger [ft] among the events handled so far. *)
Definition phase (ft : option bool) (l : loop) : Prop :=
  if aborted l then
    deleted l = false /\ closed_notifications (trace l) = []
  else
    match ft with
    | None =>
        isClosing (socket l) = false /\ isClosedByPeer (socket l) = false /\
        hasError (socket l) = false /\ reading l = true /\
        shutdown_req l = 0%nat /\ close_req l = 0%nat /\
        deleted l = false /\ closed_notifications (trace l) = []
    | Some b =>
        isClosing (socket l) = true /\ isClosedByPeer (socket l) = b /\
        reading l = false /\
        ((deleted l = false /\ closed_notifications (trace l) = [] /\
          ((shutdown_req l = 1%nat /\ close_req l = 0%nat) \/
           (shutdown_req l = 0%nat /\ close_req l = 1%nat))) \/
         (deleted l = true /\ closed_notifications (trace l) = [b] /\
          shutdown_req l = 0%nat /\ close_req l = 0%nat))
    end.

Definition next_trigger (ft : option bool) (ue : uv_results * event) :=
  match ft with
  | Some b => Some b
  | None => trigger ue
  end.

(** libuv's remaining work once closing has begun: complete the shutdown
    if one was requested, then run the close callback. *)
Definition drain (l : loop) : list (uv_results * event) :=
  (match shutdown_req l with
   | O => []
   | S _ => [(uv_ok 0, ShutdownCb 0)]
   end)
  ++ [(uv_ok 0, CloseCb)].

(** The receive buffer, once allocated, has the size fixed at
    construction. *)
Definition buffer_sized (s : UnixStreamSocket) : Prop :=
  match buffer s with
  | Some b => Z.of_nat (List.length b) = bufferSize s
  | None => True
  end.
End UnixStreamSocket.

(* ===================================================================== *)
(** ** RTC::Room: the routing maps                                       *)
(* ===================================================================== *)

Module Room.
(** Room.h declares the two routing maps and the listener callbacks that
    maintain them; receivers and senders are identified by the address of
    the object, peers by their numeric id. *)
Abbreviation RtpReceiver := nat (only parsing).
Abbreviation RtpSender := nat (only parsing).
Abbreviation peerId := nat (only parsing).

(** Modelled from the spec: Peer.h is not part of the sources; section 3
    says a peer owns its receivers and its senders. *)
Record Peer := mkPeer {
  rtpReceivers : gset nat;
  rtpSenders : gset nat
}.

Record Room := mkRoom {
  peers : gmap nat Peer;
  mapRtpReceiverRtpSenders : gmap nat (gset nat);
  mapRtpSenderRtpReceiver : gmap nat nat
}.

Definition new_Room : Room := mkRoom ∅ ∅ ∅.

(** Modelled from the spec: Room.cpp is not part of the sources.  The
    operations below follow section 4.H sentence by sentence. *)

(** Peer join: fails if the id already exists, otherwise stores a new
    peer. *)
Definition AddPeer (id : peerId) (room : Room) : option Room :=
  match peers room !! id with
  | Some _ => None
  | None =>
      Some (mkRoom (<[id := mkPeer ∅ ∅]> (peers room))
              (mapRtpReceiverRtpSenders room)
              (mapRtpSenderRtpReceiver room))
  end.

(** One peer produces a sender mirroring [receiver], with a freshly
    allocated identity; the sender is inserted into the sender->receiver
    map and into the receiver's set. *)
Definition AddRtpSenderForRtpReceiver (receiver : RtpReceiver)
    (room : Room) (id : peerId) : Room :=
  let sender := fresh (dom (mapRtpSenderRtpReceiver room)) in
  mkRoom
    (alter (fun p => mkPeer (rtpReceivers p) ({[sender]} ∪ rtpSenders p))
           id (peers room))
    (<[receiver :=
         {[sender]} ∪ default ∅ (mapRtpReceiverRtpSenders room !! receiver)]>
       (mapRtpReceiverRtpSenders room))
    (<[sender := receiver]> (mapRtpSenderRtpReceiver room)).

(** Receiver added (onPeerRtpReceiverParameters): every other peer of the
    room gets a sender for it. *)
Definition onPeerRtpReceiverParameters (id : peerId)
    (receiver : RtpReceiver) (room : Room) : Room :=
  let room :=
    mkRoom
      (alter (fun p => mkPeer ({[receiver]} ∪ rtpReceivers p) (rtpSenders p))
             id (peers room))
      (mapRtpReceiverRtpSenders room)
      (mapRtpSenderRtpReceiver room) in
  fold_left (AddRtpSenderForRtpReceiver receiver)
    (filter (fun other => other ≠ id) (elements (dom (peers room))))
    room.

(** Sender closed (onPeerRtpSenderClosed): remove the sender from its
    receiver's set and from sender->receiver, tolerating a sender that is
    already absent. *)
Definition onPeerRtpSenderClosed (room : Room) (sender : RtpSender) : Room :=
  let peers :=
    (fun p => mkPeer (rtpReceivers p) (rtpSenders p ∖ {[sender]}))
      <$> peers room in
  match mapRtpSenderRtpReceiver room !! sender with
  | Some receiver =>
      mkRoom peers
        (alter (fun senders => senders ∖ {[sender]}) receiver
               (mapRtpReceiverRtpSenders room))
        (delete sender (mapRtpSenderRtpReceiver room))
  | None =>
      mkRoom peers (mapRtpReceiverRtpSenders room)
        (mapRtpSenderRtpReceiver room)
  end.

(** Receiver closed (onPeerRtpReceiverClosed): close each sender of its
    set, then remove the receiver's entry. *)
Definition onPeerRtpReceiverClosed (room : Room) (receiver : RtpReceiver)
  : Room :=
  let room :=
    match mapRtpReceiverRtpSenders room !! receiver with
    | Some senders => fold_left onPeerRtpSenderClosed (elements senders) room
    | None => room
    end in
  mkRoom
    ((fun p => mkPeer (rtpReceivers p ∖ {[receiver]}) (rtpSenders p))
       <$> peers room)
    (delete receiver (mapRtpReceiverRtpSenders room))
    (mapRtpSenderRtpReceiver room).

(** Peer closed (onPeerClosed): close the peer's receivers and senders,
    then remove the peer. *)
Definition onPeerClosed (id : peerId) (room : Room) : Room :=
  match peers room !! id with
  | None => room
  | Some peer =>
      let room :=
        fold_left onPeerRtpReceiverClosed
          (elements (rtpReceivers peer)) room in
      let room :=
        fold_left onPeerRtpSenderClosed (elements (rtpSenders peer)) room in
      mkRoom (delete id (peers room))
        (mapRtpReceiverRtpSenders room)
        (mapRtpSenderRtpReceiver room)
  end.

(** The operations of a room, and the state reached by a sequence of
    them from a new room.  A rejected request leaves the room as it
    is. *)
Inductive operation :=
| PeerJoin (id : peerId)
| ReceiverAdded (id : peerId) (receiver : RtpReceiver)
| ReceiverClosed (receiver : RtpReceiver)
| SenderClosed (sender : RtpSender)
| PeerClosed (id : peerId).

Definition apply (room : Room) (op : operation) : Room :=
  match op with
  | PeerJoin id => default room (AddPeer id room)
  | ReceiverAdded id receiver => onPeerRtpReceiverParameters id receiver room
  | ReceiverClosed receiver => onPeerRtpReceiverClosed room receiver
  | SenderClosed sender => onPeerRtpSenderClosed room sender
  | PeerClosed id => onPeerClosed id room
  end.

Definition reach (ops : list operation) : Room :=
  fold_left apply ops new_Room.

(** The receivers whose set contains [sender]. *)
Definition forwards (room : Room) (receiver : RtpReceiver)
    (sender : RtpSender) : Prop :=
  exists senders, mapRtpReceiverRtpSenders room !! receiver = Some senders
                  /\ sender ∈ senders.

(** The routing invariant of section 3: the two maps are symmetric, and
    every sender known to the room is in the set of exactly one
    receiver. *)
Definition symmetric (room : Room) : Prop :=
  forall receiver sender,
    forwards room receiver sender ->
    mapRtpSenderRtpReceiver room !! sender = Some receiver.

Definition in_exactly_one_set (room : Room) : Prop :=
  forall sender,
    is_Some (mapRtpSenderRtpReceiver room !! sender) ->
    exists receiver,
      forwards room receiver sender /\
      forall receiver', forwards room receiver' sender -> receiver' = receiver.

(** Both directions of the correspondence between the two maps. *)
Definition routing_inv (room : Room) : Prop :=
  symmetric room /\
  forall sender receiver,
    mapRtpSenderRtpReceiver room !! sender = Some receiver ->
    forwards room receiver sender.
End Room.

(** Concrete datagrams used in the examples below. *)
Module Samples.
(** Scenario 1 of the specification: V=2, PT=96, seq=1, ts=100,
    ssrc=0x12345678 and a 4-byte payload. *)
Definition rtp_plain : list byte :=
  [x80; x60; x00; x01; x00; x00; x00; x64; x12; x34; x56; x78;
   xde; xad; xbe; xef].

(** Padding flag set; one payload byte [aa], then two padding bytes: a
    filler byte and the padding count 2. *)
Definition rtp_padded (filler : byte) : list byte :=
  [xa0; x60; x00; x01; x00; x00; x00; x64; x12; x34; x56; x78;
   xaa; filler; x02].

(** Padding flag set and nothing after the 12-byte header (scenario 2). *)
Definition rtp_padding_no_room : list byte :=
  [xa0; x60; x00; x01; x00; x00; x00; x64; x12; x34; x56; x78].

(** One CSRC, an extension of one word, one payload byte, two padding
    bytes. *)
Definition rtp_full : list byte :=
  [xb1; x60; x00; x01; x00; x00; x00; x64; x12; x34; x56; x78;
   x01; x02; x03; x04;
   xbe; xde; x00; x01; x09; x09; x09; x09;
   xaa; x00; x02].

(** RTCP BYE, count = 1, SSRC 0x00001111, reason of length 3 (b, y, e). *)
Definition bye_with_reason : list byte :=
  [x81; xcb; x00; x02; x00; x00; x11; x11; x03; x62; x79; x65].

(** RTCP BYE with no SSRC and no reason. *)
Definition bye_empty : list byte := [x80; xcb; x00; x00].

(** RTCP BYE, count = 2, SSRCs 0x1111 and 0x2222, no reason. *)
Definition bye_two_ssrcs : list byte :=
  [x82; xcb; x00; x02; x00; x00; x11; x11; x00; x00; x22; x22].
End Samples.

(* ===================================================================== *)
(** ** RTC::RtpPacket, continued: Clone and the accepted buffers          *)
(* ===================================================================== *)

Module RtpPacketClone.
Import Utils RtpPacket.
Local Open Scope Z_scope.

(** [GetLength()]: the stored length of the packet. *)
Definition GetLength (p : RtpPacket) : Z := length p.

(** Modelled from the spec: GetExtensionHeaderLength is declared in
    RtpPacket.h, which is not part of the sources.  Section 3 describes the
    extension as profile id, length in 32-bit words and value; the getter
    gives the size of the value in bytes, as Parse and Serialize compute it
    ([ntohs(extensionHeader->length) * 4]), and 0 without an extension. *)
Definition GetExtensionHeaderLength (p : RtpPacket) : Z :=
  match extensionHeader p with
  | Some e => extension_length (raw p) e * 4
  | None => 0
  end.

Inductive cloned :=
| Cloned (p : RtpPacket)
| CloneAbort.

(** RtpPacket::Clone(buffer).  [buffer] is the storage supplied by the
    caller; the new packet is a view over it. *)
Definition Clone (buffer : list byte) (p : RtpPacket) : cloned :=
  let buffer := memcpy buffer 0 (GetRaw p) 0 (GetLength p) in
  let header := 0 in
  let pos := sizeof_Header in
  let pos :=
    match csrcList p with
    | Some _ => pos + csrc_count buffer header * 4
    | None => pos
    end in
  let '(extensionHeader, pos) :=
    match extensionHeader p with
    | Some _ => (Some pos, pos + (4 + GetExtensionHeaderLength p))
    | None => (None, pos)
    end in
  let '(payload, pos) :=
    match payload p with
    | Some _ => (Some pos, pos + payloadLength p)
    | None => (None, pos)
    end in
  let '(buffer, pos) :=
    if payloadPadding p =? 0 then (buffer, pos)
    else (store buffer (pos + payloadPadding p - 1) (to_u8 (payloadPadding p)),
          pos + payloadPadding p) in
  if pos =? length p then
    Cloned (new_RtpPacket header extensionHeader payload
              (payloadLength p) (payloadPadding p) buffer (length p))
  else CloneAbort.
End RtpPacketClone.

(** The buffers that Parse accepts, in closed form: the header, the CSRC
    list and the extension fit, and with the padding flag set the last byte
    is a count between 1 and the size of what follows them. *)
Module RtpAccept.
Import Utils RtpPacket RtpLayout.
Local Open Scope Z_scope.

Definition padding_ok (data : list byte) : bool :=
  if padding data 0
  then (0 <? last_byte data) && (last_byte data <=? region_size data)
  else true.

Definition accepted (data : list byte) : bool :=
  header_fits data && padding_ok data.

(** The number of padding bytes of an accepted buffer. *)
Definition padding_length (data : list byte) : Z :=
  if padding data 0 then last_byte data else 0.

(** The packet [p] seen as a view over another buffer. *)
Definition retarget (data : list byte) (p : RtpPacket) : RtpPacket :=
  mkRtpPacket (header p) (csrcList p) (extensionHeader p) (payload p)
    (payloadLength p) (payloadPadding p) data (length p) (isSerialized p).

(** Two packet objects describe the same packet: every field but the
    buffer they point into agrees. *)
Definition same_fields (p q : RtpPacket) : Prop :=
  header p = header q /\
  csrcList p = csrcList q /\
  extensionHeader p = extensionHeader q /\
  payload p = payload q /\
  payloadLength p = payloadLength q /\
  payloadPadding p = payloadPadding q /\
  length p = length q.
End RtpAccept.

(* ===================================================================== *)
(** ** UnixStreamSocket, continued: the order of the calls on the handle  *)
(* ===================================================================== *)

Module SocketLifecycle.
Import UnixStreamSocket.

(** The stages a handle goes through, told from the calls made so far:
    open; reading stopped; shutdown requested; close requested; owner
    notified; object deleted. *)
Inductive stage :=
| Open
| Stopped
| ShuttingDown
| Closing
| Notified
| Deleted.

(** The calls that may follow in each stage.  Writes and read
    notifications belong to the open handle; uv_read_stop comes once and
    first; uv_shutdown, when requested, comes between uv_read_stop and
    uv_close; the owner is notified after uv_close, and the object is
    deleted right after the notification. *)
Definition advance (st : stage) (c : call) : option stage :=
  match st, c with
  | Open, uv_try_write _ => Some Open
  | Open, uv_write _ => Some Open
  | Open, userOnUnixStreamRead => Some Open
  | Open, uv_read_stop => Some Stopped
  | Stopped, uv_shutdown => Some ShuttingDown
  | Stopped, uv_close => Some Closing
  | ShuttingDown, uv_close => Some Closing
  | Closing, userOnUnixStreamSocketClosed _ => Some Notified
  | Notified, delete_this => Some Deleted
  | _, _ => None
  end.

Fixpoint lifecycle (st : stage) (calls : list call) : option stage :=
  match calls with
  | [] => Some st
  | c :: calls =>
      match advance st c with
      | Some st => lifecycle st calls
      | None => None
      end
  end.

(** What the loop state must be at each stage, between two events, while
    the process has not aborted. *)
Definition stage_matches (st : stage) (l : loop) : Prop :=
  match st with
  | Open =>
      isClosing (socket l) = false /\ reading l = true /\
      shutdown_req l = 0%nat /\ close_req l = 0%nat /\ deleted l = false
  | ShuttingDown =>
      isClosing (socket l) = true /\ reading l = false /\
      shutdown_req l = 1%nat /\ close_req l = 0%nat /\ deleted l = false
  | Closing =>
      isClosing (socket l) = true /\ reading l = false /\
      shutdown_req l = 0%nat /\ close_req l = 1%nat /\ deleted l = false
  | Deleted =>
      isClosing (socket l) = true /\ reading l = false /\
      shutdown_req l = 0%nat /\ close_req l = 0%nat /\ deleted l = true
  | Stopped | Notified => False
  end.

(** The calls that can still be made once reading was stopped. *)
Definition after_stop (c : call) : bool :=
  match c with
  | uv_shutdown | uv_close | userOnUnixStreamSocketClosed _ | delete_this =>
      true
  | _ => false
  end.

(** The number of uv_close calls in a trace. *)
Fixpoint closes (calls : list call) : nat :=
  match calls with
  | [] => 0
  | uv_close :: calls => S (closes calls)
  | _ :: calls => closes calls
  end.
(** The invariant: the trace is a path of the lifecycle, and the loop
    state is the one of the stage reached. *)
Definition on_track (l : loop) : Prop :=
  exists st, lifecycle Open (trace l) = Some st /\
             (aborted l = false -> stage_matches st l).
End SocketLifecycle.


(* ===================================================================== *)
(** * Properties                                                          *)
(* ===================================================================== *)

Ltac bool_to_Prop :=
    repeat match goal with
      | H : (_ && _) = true |- _ => apply andb_true_iff in H; destruct H
      | H : (_ && _) = false |- _ => apply andb_false_iff in H; destruct H
      | H : (_ <=? _)%Z = true |- _ => apply Z.leb_le in H
      | H : (_ <=? _)%Z = false |- _ => apply Z.leb_gt in H
      | H : (_ <? _)%Z = true |- _ => apply Z.ltb_lt in H
      | H : (_ <? _)%Z = false |- _ => apply Z.ltb_ge in H
      | H : (_ =? _)%Z = true |- _ => apply Z.eqb_eq in H
      | H : (_ =? _)%Z = false |- _ => apply Z.eqb_neq in H
      end.

Section ByteFacts.
Import Utils.
Local Open Scope Z_scope.

Lemma u8_range (b : byte) : 0 <= u8 b < 256.
Proof.
  unfold u8. pose proof (Byte.to_N_bounded b) as H.
  split; [apply N2Z.is_nonneg | lia].
Qed.

Lemma Get1Byte_range data i : 0 <= Get1Byte data i < 256.
Proof. apply u8_range. Qed.

Lemma Get2Bytes_nonneg data i : 0 <= Get2Bytes data i.
Proof.
  unfold Get2Bytes. apply Z.lor_nonneg. split.
  - apply Z.shiftl_nonneg, Get1Byte_range.
  - apply Get1Byte_range.
Qed.

Lemma to_u8_u8 (b : byte) : to_u8 (u8 b) = b.
Proof.
  unfold to_u8. rewrite Z.mod_small by apply u8_range.
  unfold u8. rewrite N2Z.id, Byte.of_to_N. reflexivity.
Qed.

Lemma length_memcpy dst d src s n :
  List.length (memcpy dst d src s n) = List.length dst.
Proof. unfold memcpy. apply length_imap. Qed.

Lemma length_store buf i v : List.length (store buf i v) = List.length buf.
Proof. unfold store. destruct (i <? 0); [reflexivity | apply length_insert]. Qed.

Lemma length_new_array fresh n :
  List.length (new_array fresh n) = Z.to_nat n.
Proof. unfold new_array. rewrite length_map, length_seq. reflexivity. Qed.

Lemma byte_at_memcpy dst d src s n i :
  byte_at (memcpy dst d src s n) i =
  if (i <? Z.of_nat (List.length dst)) && ((d <=? i) && (i <? d + n))
  then (if i <? 0 then x00 else byte_at src (s + (i - d)))
  else byte_at dst i.
Proof.
  unfold byte_at at 1 3. unfold memcpy.
  destruct (i <? 0) eqn:Hneg.
  - destruct (_ && _); reflexivity.
  - apply Z.ltb_ge in Hneg. rewrite list_lookup_imap.
    destruct (dst !! Z.to_nat i) as [b|] eqn:Hl; simpl.
    + apply lookup_lt_Some in Hl. rewrite Z2Nat.id by lia.
      replace (i <? Z.of_nat (List.length dst)) with true
        by (symmetry; apply Z.ltb_lt; lia).
      simpl. destruct (_ && _); reflexivity.
    + apply lookup_ge_None in Hl.
      replace (i <? Z.of_nat (List.length dst)) with false
        by (symmetry; apply Z.ltb_ge; lia).
      reflexivity.
Qed.

Lemma byte_at_store buf j v i :
  byte_at (store buf j v) i =
  if (i =? j) && (0 <=? i) && (i <? Z.of_nat (List.length buf))
  then v else byte_at buf i.
Proof.
  unfold byte_at, store.
  destruct (i <? 0) eqn:Hi.
  - apply Z.ltb_lt in Hi. replace (0 <=? i) with false by (symmetry; apply Z.leb_gt; lia).
    rewrite andb_false_r. reflexivity.
  - apply Z.ltb_ge in Hi. replace (0 <=? i) with true by (symmetry; apply Z.leb_le; lia).
    rewrite andb_true_r.
    destruct (j <? 0) eqn:Hj.
    + apply Z.ltb_lt in Hj. replace (i =? j) with false by (symmetry; apply Z.eqb_neq; lia).
      reflexivity.
    + apply Z.ltb_ge in Hj.
      destruct (i =? j) eqn:Hij; simpl.
      * apply Z.eqb_eq in Hij. subst j.
        destruct (i <? Z.of_nat (List.length buf)) eqn:Hlt.
        -- apply Z.ltb_lt in Hlt. rewrite list_lookup_insert_eq by lia. reflexivity.
        -- apply Z.ltb_ge in Hlt. rewrite list_insert_ge by lia. reflexivity.
      * apply Z.eqb_neq in Hij. rewrite list_lookup_insert_ne by lia. reflexivity.
Qed.

Lemma byte_at_new_array_length fresh n : 0 <= n ->
  Z.of_nat (List.length (new_array fresh n)) = n.
Proof. intros. rewrite length_new_array. lia. Qed.

Lemma byte_at_ext (l1 l2 : list byte) :
  List.length l1 = List.length l2 ->
  (forall i, 0 <= i < Z.of_nat (List.length l1) -> byte_at l1 i = byte_at l2 i) ->
  l1 = l2.
Proof.
  intros Hlen H. apply list_eq. intros k.
  destruct (decide (k < List.length l1)%nat) as [Hk|Hk].
  - specialize (H (Z.of_nat k) ltac:(lia)). unfold byte_at in H.
    replace (Z.of_nat k <? 0) with false in H by (symmetry; apply Z.ltb_ge; lia).
    rewrite Nat2Z.id in H.
    destruct (lookup_lt_is_Some_2 l1 k Hk) as [a Ha].
    destruct (lookup_lt_is_Some_2 l2 k ltac:(lia)) as [b Hb].
    rewrite Ha, Hb in *. simpl in H. congruence.
  - rewrite !lookup_ge_None_2 by lia. reflexivity.
Qed.
End ByteFacts.

Section RtpParseFacts.
Import Utils RtpPacket RtpLayout.
Local Open Scope Z_scope.

Lemma csrc_count_nonneg data h : 0 <= csrc_count data h.
Proof. unfold csrc_count. apply Z.land_nonneg. right. lia. Qed.

Lemma extension_length_nonneg data e : 0 <= extension_length data e.
Proof. apply Get2Bytes_nonneg. Qed.

Lemma Parse_payload_cases data csz eh evs pos :
  let len := Z.of_nat (List.length data) in
  let region := len - pos in
  let p := Get1Byte data (len - 1) in
  let mk plen pad :=
    new_RtpPacket 0 eh (if plen =? 0 then None else Some pos)
      plen pad data len in
  pos <= len ->
  pos = 12 + csz + (match eh with Some _ => 4 + evs | None => 0 end) ->
  Parse_payload data len csz eh evs pos =
    if padding data 0 then
      if region =? 0 then Nullptr NoSpaceForPaddingByte
      else if p =? 0 then Nullptr PaddingByteZero
      else if region <? p then Nullptr PaddingGreaterThanPayload
      else Packet (mk (region - p) p)
    else Packet (mk region 0).
Proof.
  intros len region p mk Hle Hpos. unfold Parse_payload, sizeof_Header.
  fold len. fold region. fold p.
  replace (len <? pos) with false by (symmetry; apply Z.ltb_ge; lia).
  destruct (padding data 0).
  - destruct (region =? 0); [reflexivity|].
    destruct (p =? 0); [reflexivity|].
    destruct (region <? p); [reflexivity|].
    replace (len =? _) with true; [reflexivity|].
    symmetry; apply Z.eqb_eq. subst region. lia.
  - replace (len =? _) with true; [reflexivity|].
    symmetry; apply Z.eqb_eq. subst region. lia.
Qed.

Lemma Parse_header_fits_payload data :
  header_fits data = true ->
  Parse data =
    Parse_payload data (total_len data) (csrc_bytes data)
      (if extension data 0 then Some (12 + csrc_bytes data) else None)
      (if extension data 0
       then 4 * extension_length data (12 + csrc_bytes data) else 0)
      (payload_offset data).
Proof.
  unfold header_fits, payload_offset, ext_bytes, csrc_bytes, total_len.
  intros Hfit.
  pose proof (csrc_count_nonneg data 0) as Hcc.
  unfold Parse, Parse_extension, sizeof_Header.
  set (len := Z.of_nat (List.length data)) in *.
  set (cc := csrc_count data 0) in *.
  apply andb_true_iff in Hfit as [Hfit Hext].
  apply andb_true_iff in Hfit as [Hrtp Hcsrc].
  rewrite Hrtp. simpl negb. cbv iota.
  apply Z.leb_le in Hcsrc.
  assert (Hstep : forall csz pos, csz = 4 * cc -> pos = 12 + 4 * cc ->
    (if extension data 0
     then if len <? pos + 4 then Nullptr NoSpaceForExtensionHeader
          else if len <? pos + 4 + extension_length data pos * 4
               then Nullptr NoSpaceForExtensionValue
               else Parse_payload data len csz (Some pos)
                      (extension_length data pos * 4)
                      (pos + 4 + extension_length data pos * 4)
     else Parse_payload data len csz None 0 pos) =
    Parse_payload data len (4 * cc)
      (if extension data 0 then Some (12 + 4 * cc) else None)
      (if extension data 0 then 4 * extension_length data (12 + 4 * cc) else 0)
      (12 + 4 * cc +
       (if extension data 0
        then 4 + 4 * extension_length data (12 + 4 * cc) else 0))).
  { intros csz pos -> ->.
    destruct (extension data 0).
    - apply andb_true_iff in Hext as [H1 H2].
      apply Z.leb_le in H1. apply Z.leb_le in H2.
      replace (len <? 12 + 4 * cc + 4) with false
        by (symmetry; apply Z.ltb_ge; lia).
      replace (len <? _) with false by (symmetry; apply Z.ltb_ge; lia).
      f_equal; lia.
    - f_equal; lia. }
  destruct (cc =? 0) eqn:Hc0.
  - apply Z.eqb_eq in Hc0. apply Hstep; lia.
  - replace (len <? 12 + cc * 4) with false
      by (symmetry; apply Z.ltb_ge; lia).
    apply Hstep; lia.
Qed.

Lemma Parse_header_fits data :
  header_fits data = true ->
  Parse data =
    if padding data 0 then
      if region_size data =? 0 then Nullptr NoSpaceForPaddingByte
      else if last_byte data =? 0 then Nullptr PaddingByteZero
      else if region_size data <? last_byte data
           then Nullptr PaddingGreaterThanPayload
           else Packet (view data (region_size data - last_byte data)
                          (last_byte data))
    else Packet (view data (region_size data) 0).
Proof.
  intros Hfit. rewrite (Parse_header_fits_payload data Hfit).
  rewrite Parse_payload_cases.
  - reflexivity.
  - unfold header_fits in Hfit.
    apply andb_true_iff in Hfit as [Hfit Hext].
    apply andb_true_iff in Hfit as [_ Hcsrc]. apply Z.leb_le in Hcsrc.
    unfold payload_offset, ext_bytes in *. fold (total_len data).
    destruct (extension data 0).
    + apply andb_true_iff in Hext as [_ H2]. apply Z.leb_le in H2. lia.
    + lia.
  - unfold payload_offset, ext_bytes. destruct (extension data 0); lia.
Qed.

Lemma Parse_not_header_fits data :
  header_fits data = false -> exists why, Parse data = Nullptr why.
Proof.
  unfold header_fits, payload_offset, ext_bytes, csrc_bytes, total_len.
  intros Hfit.
  unfold Parse, Parse_extension, sizeof_Header.
  set (len := Z.of_nat (List.length data)) in *.
  set (cc := csrc_count data 0) in *.
  destruct (IsRtp data) eqn:Hrtp; simpl in Hfit |- *; [|eauto].
  assert (H12 : 12 <= len).
  { unfold IsRtp, sizeof_Header in Hrtp.
    apply andb_true_iff in Hrtp as [Hrtp _]. apply Z.leb_le in Hrtp.
    exact Hrtp. }
  assert (Hstep : forall csz pos, pos = 12 + 4 * cc -> pos <= len ->
    exists why,
    (if extension data 0
     then if len <? pos + 4 then Nullptr NoSpaceForExtensionHeader
          else if len <? pos + 4 + extension_length data pos * 4
               then Nullptr NoSpaceForExtensionValue
               else Parse_payload data len csz (Some pos)
                      (extension_length data pos * 4)
                      (pos + 4 + extension_length data pos * 4)
     else Parse_payload data len csz None 0 pos) = Nullptr why).
  { intros csz pos -> Hle.
    replace (12 + 4 * cc <=? len) with true in Hfit
      by (symmetry; apply Z.leb_le; lia).
    destruct (extension data 0); [|discriminate].
    destruct (len <? 12 + 4 * cc + 4) eqn:H1; [eauto|].
    apply Z.ltb_ge in H1.
    replace (12 + 4 * cc + 4 <=? len) with true in Hfit
      by (symmetry; apply Z.leb_le; lia).
    simpl in Hfit. apply Z.leb_gt in Hfit.
    replace (len <? _) with true by (symmetry; apply Z.ltb_lt; lia).
    eauto. }
  destruct (cc =? 0) eqn:Hc0.
  - apply Z.eqb_eq in Hc0. apply Hstep; lia.
  - destruct (len <? 12 + cc * 4) eqn:Hlt; [eauto|].
    apply Z.ltb_ge in Hlt. apply Hstep; lia.
Qed.
End RtpParseFacts.

Section RtpSerializeFacts.
Import Utils RtpPacket RtpLayout.
Local Open Scope Z_scope.

Lemma csrc_count_copied_header heap data n :
  12 <= n ->
  csrc_count (memcpy (new_array heap n) 0 data 0 12) 0 = csrc_count data 0.
Proof.
  intros Hn. unfold csrc_count, Get1Byte.
  rewrite byte_at_memcpy, byte_at_new_array_length by lia.
  replace (0 <? n) with true by (symmetry; apply Z.ltb_lt; lia).
  reflexivity.
Qed.

Lemma Serialize_view heap data plen pad :
  header_fits data = true ->
  0 <= plen ->
  pad = 0 \/ (0 < pad /\ pad = last_byte data) ->
  payload_offset data + plen + pad = total_len data ->
  exists p',
    Serialize heap (view data plen pad) = Serialized p' /\
    List.length (raw p') = List.length data /\
    forall i, 0 <= i < total_len data ->
              i < total_len data - pad \/ i = total_len data - 1 ->
              byte_at (raw p') i = byte_at data i.
Proof.
  intros Hfit Hplen Hpad Hsum.
  pose proof (csrc_count_nonneg data 0) as Hcc.
  pose proof (extension_length_nonneg data (12 + csrc_bytes data)) as Hel.
  assert (H12 : 12 <= total_len data).
  { unfold header_fits, IsRtp, sizeof_Header in Hfit. unfold total_len.
    apply andb_true_iff in Hfit as [Hfit _].
    apply andb_true_iff in Hfit as [Hfit _].
    apply andb_true_iff in Hfit as [Hfit _].
    apply Z.leb_le in Hfit. exact Hfit. }
  unfold view, new_RtpPacket, payload_offset, ext_bytes, sizeof_Header in *.
  set (len := total_len data) in *.
  destruct (csrc_count data 0 =? 0) eqn:Hc0;
  destruct (extension data 0) eqn:Hx;
  destruct (plen =? 0) eqn:Hp0;
  destruct (pad =? 0) eqn:Hpad0.
  all: unfold Serialize, sizeof_Header;
    cbn [header csrcList extensionHeader payload payloadLength
         payloadPadding raw length isSerialized];
    rewrite ?Hpad0, ?Hc0.
  all: bool_to_Prop.
  all: match goal with
       | |- context [new_array _ ?n] =>
           replace n with len by (unfold csrc_bytes in *; lia)
       end. 
  all: rewrite ?csrc_count_copied_header by lia.
  all: match goal with
       | |- context [if ?a =? ?b then _ else _] =>
           replace (a =? b) with true
             by (symmetry; apply Z.eqb_eq; unfold csrc_bytes in *; lia)
       end.
  all: eexists; split; [reflexivity|]; cbn [raw]; split;
    [ rewrite ?length_store, ?length_memcpy, length_new_array;
      unfold len, total_len; apply Nat2Z.id | ].
  all: intros i Hi Hor.
  all: assert (Hlast : pad <> 0 -> to_u8 pad = byte_at data (len - 1))
    by (intros Hne; destruct Hpad as [Hpad|[_ Hpad]]; [lia|];
        rewrite Hpad; apply to_u8_u8).
  all: rewrite ?byte_at_store, ?byte_at_memcpy,
         ?length_store, ?length_memcpy, ?byte_at_new_array_length by lia.
  all: unfold csrc_bytes in *.
  all: repeat match goal with
         | |- context [if ?c then _ else _] =>
             destruct c eqn:?; bool_to_Prop;
             try (exfalso; lia); try (f_equal; lia);
             try (rewrite Hlast by lia; f_equal; lia)
         end.
Qed.
End RtpSerializeFacts.

Section ByeFacts.
Import Utils ByePacket.
Local Open Scope Z_scope.

Lemma Parse_loop_reason data len n offset packet c o p :
  Parse_loop data len n offset packet = Some (c, o, p) ->
  reason p = reason packet /\ (c = 255 \/ size_t (len - o) <= 0).
Proof.
  revert offset packet. induction n as [|n IH]; intros offset packet H; simpl in H.
  - inversion H; subst. split; [reflexivity | left; reflexivity].
  - destruct (0 <? size_t (len - offset)) eqn:Hpos.
    + destruct (size_t (len - offset) <? 4); [discriminate|].
      apply IH in H. exact H.
    + inversion H; subst. apply Z.ltb_ge in Hpos. split; [reflexivity | right; exact Hpos].
Qed.

Lemma Parse_reason_empty data p : Parse data = Some p -> reason p = [].
Proof.
  unfold Parse. intros H.
  destruct (Parse_loop _ _ _ _ _) as [[[c o] q]|] eqn:Hloop; [|discriminate].
  apply Parse_loop_reason in Hloop as [Hr Hc]. simpl in Hr.
  destruct (c =? 0) eqn:Hc0.
  - apply Z.eqb_eq in Hc0. destruct Hc as [Hc|Hc]; [lia|].
    pose proof (u8_range (byte_at data o)).
    replace (1 + Get1Byte data o <=? _) with false in H.
    + inversion H; subst. exact Hr.
    + symmetry. apply Z.leb_gt. unfold Get1Byte. lia.
  - inversion H; subst. exact Hr.
Qed.

(** What Parse does deliver: when the datagram holds the announced number
    of SSRCs, they are returned in order (and the reason is left empty). *)
Lemma Parse_loop_ssrcs data n : forall offset packet,
  0 <= offset ->
  offset + 4 * Z.of_nat n <= Z.of_nat (List.length data) ->
  Z.of_nat (List.length data) < 2 ^ 64 ->
  Parse_loop data (Z.of_nat (List.length data)) n offset packet
  = Some (255, offset + 4 * Z.of_nat n,
          {| ssrcs := ssrcs packet
                      ++ map (fun k => Get4Bytes data (offset + 4 * Z.of_nat k))
                             (seq 0 n);
             reason := reason packet |}).
Proof.
  induction n as [|n IH]; intros offset packet H0 Hfit Hmax.
  - simpl. rewrite app_nil_r. destruct packet.
    repeat f_equal. lia.
  - cbn [Parse_loop].
    assert (Hsz : size_t (Z.of_nat (List.length data) - offset)
                  = Z.of_nat (List.length data) - offset)
      by (unfold size_t; apply Z.mod_small; lia).
    rewrite Hsz.
    replace (0 <? _) with true by (symmetry; apply Z.ltb_lt; lia).
    replace (_ <? 4) with false by (symmetry; apply Z.ltb_ge; lia).
    assert (Hoff : size_t (offset + 4) = offset + 4)
      by (unfold size_t; apply Z.mod_small; lia).
    rewrite Hoff, IH by lia. unfold AddSsrc. cbn [ssrcs reason].
    f_equal. f_equal; [f_equal; lia|]. f_equal.
    rewrite <- app_assoc. f_equal. cbn [seq map app].
    f_equal; [f_equal; lia|].
    rewrite <- seq_shift, map_map. apply map_ext. intros k. f_equal. lia.
Qed.

Lemma Parse_ssrcs data :
  4 + 4 * count data <= Z.of_nat (List.length data) ->
  Z.of_nat (List.length data) < 2 ^ 64 ->
  Parse data
  = Some {| ssrcs := map (fun k => Get4Bytes data (4 + 4 * Z.of_nat k))
                         (seq 0 (Z.to_nat (count data)));
            reason := [] |}.
Proof.
  intros Hfit Hmax. unfold Parse, sizeof_CommonHeader.
  assert (Hc : 0 <= count data)
    by (unfold count; apply Z.land_nonneg; right; lia).
  rewrite Parse_loop_ssrcs by lia. reflexivity.
Qed.
End ByeFacts.

Section ByeSerializeFacts.
Import Utils ByePacket.
Local Open Scope Z_scope.

Lemma size_t_mod4 z : size_t z mod 4 = z mod 4.
Proof.
  unfold size_t. apply Z.mod_mod_divide.
  exists (2 ^ 62). reflexivity.
Qed.

Lemma size_t_idem z : size_t (size_t z) = size_t z.
Proof. unfold size_t. apply Z.mod_mod. lia. Qed.

Lemma size_t_add_l a b : size_t (size_t a + b) = size_t (a + b).
Proof. unfold size_t. apply Zplus_mod_idemp_l. Qed.

Lemma land3_mod4 z : Z.land z 3 = z mod 4.
Proof. change 3 with (Z.ones 2). rewrite Z.land_ones by lia. reflexivity. Qed.

Lemma padding_value offset :
  Z.land (size_t (- offset)) 3 = (- offset) mod 4.
Proof. rewrite land3_mod4. apply size_t_mod4. Qed.

Lemma padded_aligned offset :
  size_t (offset + (- offset) mod 4) mod 4 = 0.
Proof.
  rewrite size_t_mod4, Zplus_mod_idemp_r.
  replace (offset + - offset) with 0 by lia. reflexivity.
Qed.

Lemma zero_padding_hit data offset padding i :
  0 <= i < padding ->
  zero_padding data offset padding (size_t (offset + i)) = x00.
Proof.
  unfold zero_padding. intros Hi.
  assert (Hn : (Z.to_nat i < Z.to_nat padding)%nat) by lia.
  replace i with (Z.of_nat (Z.to_nat i)) by lia.
  generalize dependent (Z.to_nat i). clear i Hi. intros k Hk.
  induction (Z.to_nat padding) as [|n IH]; [lia|].
  rewrite seq_S, fold_left_app. simpl. unfold poke at 1.
  destruct (size_t (offset + Z.of_nat k) =? size_t (offset + Z.of_nat n)) eqn:He;
    [reflexivity|].
  apply IH. apply Z.eqb_neq in He.
  destruct (decide (k = n)) as [->|Hne]; [congruence | lia].
Qed.

Lemma zero_padding_miss data offset padding j :
  (forall i, 0 <= i < padding -> j <> size_t (offset + i)) ->
  zero_padding data offset padding j = data j.
Proof.
  unfold zero_padding. intros Hj.
  assert (Hn : forall k, (k < Z.to_nat padding)%nat ->
                         j <> size_t (offset + Z.of_nat k))
    by (intros k Hk; apply Hj; lia).
  clear Hj. induction (Z.to_nat padding) as [|n IH]; [reflexivity|].
  rewrite seq_S, fold_left_app. simpl. unfold poke at 1.
  replace (j =? size_t (offset + Z.of_nat n)) with false
    by (symmetry; apply Z.eqb_neq, Hn; lia).
  apply IH. intros k Hk. apply Hn. lia.
Qed.

Lemma Serialize_ssrcs_offset (l : list Z) data offset :
  size_t (snd (fold_left
                 (fun '(data, offset) ssrc =>
                    (memcpy_uint32 data ssrc, size_t (offset + 4)))
                 l (data, offset)))
  = size_t (offset + 4 * Z.of_nat (List.length l)).
Proof.
  revert data offset. induction l as [|a l IH]; intros data offset.
  - simpl. f_equal. lia.
  - cbn [fold_left]. rewrite IH, size_t_add_l. f_equal.
    rewrite length_cons. lia.
Qed.

Lemma Serialize_fields_offset PS p data :
  size_t (snd (Serialize_fields PS p data))
  = size_t (unpadded_size (snd (PS p data)) p).
Proof.
  unfold Serialize_fields, unpadded_size, Serialize_ssrcs.
  destruct (PS p data) as [d0 h]. simpl snd.
  pose proof (Serialize_ssrcs_offset (ssrcs p) d0 h) as Hs.
  destruct (fold_left _ (ssrcs p) (d0, h)) as [d1 o1]. simpl snd in Hs.
  destruct (reason p) as [|b r].
  - simpl snd. rewrite Hs. f_equal. lia.
  - simpl snd. rewrite size_t_idem, size_t_add_l.
    transitivity (size_t (size_t o1 + (1 + Z.of_nat (S (List.length r))))).
    + rewrite size_t_add_l. f_equal. lia.
    + rewrite Hs, size_t_add_l. f_equal.
Qed.
End ByeSerializeFacts.

Section SocketFacts.
Import Utils UnixStreamSocket.
Local Open Scope Z_scope.

Lemma closed_notifications_app a b :
  closed_notifications (a ++ b) = closed_notifications a ++ closed_notifications b.
Proof.
  induction a as [|c a IH]; [reflexivity|].
  destruct c; simpl; rewrite ?IH; reflexivity.
Qed.

Lemma first_trigger_app pre ue :
  first_trigger (pre ++ [ue]) = next_trigger (first_trigger pre) ue.
Proof.
  induction pre as [|x pre IH]; simpl.
  - destruct (trigger ue); reflexivity.
  - destruct (trigger x); [reflexivity | exact IH].
Qed.

Ltac Zbool :=
  repeat match goal with
    | H : (_ || _) = true |- _ => apply orb_true_iff in H; destruct H
    | H : (_ || _) = false |- _ => apply orb_false_iff in H; destruct H
    | H : (_ && _) = true |- _ => apply andb_true_iff in H; destruct H
    | H : (_ && _) = false |- _ => apply andb_false_iff in H; destruct H
    | H : negb _ = true |- _ => apply negb_true_iff in H
    | H : negb _ = false |- _ => apply negb_false_iff in H
    | H : (_ <=? _) = true |- _ => apply Z.leb_le in H
    | H : (_ <=? _) = false |- _ => apply Z.leb_gt in H
    | H : (_ <? _) = true |- _ => apply Z.ltb_lt in H
    | H : (_ <? _) = false |- _ => apply Z.ltb_ge in H
    | H : (_ =? _) = true |- _ => apply Z.eqb_eq in H
    | H : (_ =? _) = false |- _ => apply Z.eqb_neq in H
    end.

Lemma phase_step ft uv e l l' :
  phase ft l -> step uv e l = Some l' -> phase (next_trigger ft (uv, e)) l'.
Proof.
  destruct l as [[bs buf bdl closing bypeer err] rd sh cl wr del ab tr].
  unfold phase, step, next_trigger.
  cbn [aborted deleted socket reading shutdown_req close_req write_reqs
       trace isClosing isClosedByPeer hasError].
  intros Hph Hstep.
  destruct ab; [discriminate|].
  destruct ft as [b|].
  - (* closing has begun *)
    destruct Hph as (-> & -> & -> & Hrest).
    destruct Hrest as [(-> & Htr & Hreq)|(-> & Htr & -> & ->)].
    + (* the close callback is still to come *)
      destruct Hreq as [(-> & ->)|(-> & ->)];
        destruct e; simpl in Hstep; try discriminate;
        try (destruct wr; [discriminate|]);
        inversion Hstep; subst; clear Hstep;
        unfold on_write, onUvWriteError; simpl;
        try destruct (status =? 0); simpl;
        rewrite ?closed_notifications_app, Htr; simpl;
        intuition congruence.
    + (* the object is deleted: only a write completion can be pending *)
      destruct e; simpl in Hstep; try discriminate.
      destruct wr; [discriminate|].
      inversion Hstep; subst; clear Hstep.
      unfold on_write, onUvWriteError; simpl.
      destruct (status =? 0); simpl; rewrite Htr; intuition congruence.
  - (* still open *)
    destruct Hph as (-> & -> & -> & -> & -> & -> & -> & Htr).
    destruct e; simpl in Hstep.
    + inversion Hstep; subst; clear Hstep.
      unfold trigger, Close. simpl.
      destruct (read_stop_err uv =? 0); simpl;
        [destruct (shutdown_err uv =? 0); simpl|];
        rewrite ?closed_notifications_app, Htr; simpl; intuition congruence.
    + inversion Hstep; subst; clear Hstep.
      unfold trigger, Write, Write_pending, Close, after.
      cbn [isClosing isClosedByPeer hasError set_isClosing negb andb].
      unfold UV_EAGAIN, UV_ENOSYS.
      set (len := Z.of_nat (List.length data)).
      set (w := try_write_written uv).
      repeat (match goal with
              | |- context [if ?c then _ else _] =>
                  lazymatch c with
                  | aborted _ => fail
                  | _ => destruct c eqn:?
                  end
              end; simpl);
        Zbool; try lia;
        rewrite ?closed_notifications_app, ?Htr; simpl;
        intuition congruence.
    + inversion Hstep; subst; clear Hstep.
      unfold trigger, onUvRead, Close.
      cbn [isClosing isClosedByPeer hasError set_isClosing set_hasError
           set_isClosedByPeer set_bufferDataLen negb andb].
      unfold UV_EOF, UV_ECONNRESET.
      repeat (match goal with
              | |- context [if ?c then _ else _] =>
                  lazymatch c with
                  | aborted _ => fail
                  | _ => destruct c eqn:?
                  end
              end; simpl);
        Zbool; try lia;
        rewrite ?closed_notifications_app, ?Htr; simpl;
        intuition congruence.
    + destruct wr; [discriminate|].
      inversion Hstep; subst; clear Hstep.
      unfold trigger, on_write, onUvWriteError, Close.
      cbn [isClosing isClosedByPeer hasError set_isClosing set_hasError
           negb andb].
      repeat (match goal with
              | |- context [if ?c then _ else _] =>
                  lazymatch c with
                  | aborted _ => fail
                  | _ => destruct c eqn:?
                  end
              end; simpl);
        Zbool; try lia;
        rewrite ?closed_notifications_app, ?Htr; simpl;
        intuition congruence.
    + discriminate.
    + discriminate.
Qed.

Lemma phase_start bs : phase None (start bs).
Proof. unfold phase, start; simpl. intuition congruence. Qed.

Lemma phase_run evs : forall pre l w,
  phase (first_trigger pre) l -> run evs l = Some w ->
  phase (first_trigger (pre ++ evs)) w.
Proof.
  induction evs as [|[uv e] evs IH]; intros pre l w Hph Hrun; simpl in Hrun.
  - inversion Hrun; subst. rewrite app_nil_r. exact Hph.
  - destruct (step uv e l) as [l1|] eqn:Hstep; [|discriminate].
    replace (pre ++ (uv, e) :: evs) with ((pre ++ [(uv, e)]) ++ evs)
      by (rewrite <- app_assoc; reflexivity).
    apply (IH _ l1); [|exact Hrun].
    rewrite first_trigger_app. eapply phase_step; eassumption.
Qed.

Lemma phase_drain b l :
  phase (Some b) l -> aborted l = false -> deleted l = false ->
  exists l', run (drain l) l = Some l' /\ aborted l' = false /\
             deleted l' = true /\ closed_notifications (trace l') = [b].
Proof.
  destruct l as [[bs buf bdl closing bypeer err] rd sh cl wr del ab tr].
  unfold phase, drain. simpl. intros Hph -> ->.
  destruct Hph as (-> & -> & -> & [(_ & Htr & Hreq)|(Hdel & _)]);
    [|discriminate].
  destruct Hreq as [(-> & ->)|(-> & ->)]; simpl;
    eexists; (split; [reflexivity|]); simpl;
    rewrite !closed_notifications_app, Htr; simpl; auto.
Qed.

(** Once the object is deleted libuv has nothing pending that could reach
    it, and no event makes it call anything again. *)
Lemma phase_deleted b l :
  phase (Some b) l -> aborted l = false -> deleted l = true ->
  reading l = false /\ shutdown_req l = 0%nat /\ close_req l = 0%nat /\
  forall uv e l', step uv e l = Some l' ->
                  trace l' = trace l /\ deleted l' = true.
Proof.
  destruct l as [[bs buf bdl closing bypeer err] rd sh cl wr del ab tr].
  unfold phase. simpl. intros Hph -> ->.
  destruct Hph as (-> & -> & -> & [(Hdel & _)|(_ & Htr & -> & ->)]);
    [discriminate|].
  split; [reflexivity|]. split; [reflexivity|]. split; [reflexivity|].
  intros uv e l' Hstep. unfold step in Hstep. simpl in Hstep.
  destruct e; try discriminate.
  destruct wr; [discriminate|].
  inversion Hstep; subst; clear Hstep.
  unfold on_write, onUvWriteError; simpl.
  destruct (status =? 0); simpl; split; reflexivity.
Qed.
End SocketFacts.

Section RoomFacts.
Import Room.

Lemma routing_inv_new : routing_inv new_Room.
Proof.
  split.
  - intros r s (S & HS & _). simpl in HS. rewrite lookup_empty in HS. discriminate.
  - intros s r H. simpl in H. rewrite lookup_empty in H. discriminate.
Qed.

Lemma routing_inv_add_sender receiver room id :
  routing_inv room -> routing_inv (AddRtpSenderForRtpReceiver receiver room id).
Proof.
  intros [Hfwd Hbwd].
  pose proof (is_fresh (dom (mapRtpSenderRtpReceiver room))) as Hfresh.
  set (s := fresh (dom (mapRtpSenderRtpReceiver room))) in *.
  assert (Hnone : mapRtpSenderRtpReceiver room !! s = None)
    by (apply not_elem_of_dom; exact Hfresh).
  unfold AddRtpSenderForRtpReceiver. fold s. clearbody s.
  split.
  - intros r0 s0 (S0 & HS0 & Hin). simpl in *.
    destruct (decide (r0 = receiver)) as [->|Hne].
    + rewrite lookup_insert_eq in HS0. inversion HS0; subst S0; clear HS0.
      apply elem_of_union in Hin as [Hin|Hin].
      * apply elem_of_singleton in Hin. subst s0. apply lookup_insert_eq.
      * destruct (mapRtpReceiverRtpSenders room !! receiver) as [S|] eqn:HS;
          simpl in Hin; [|set_solver].
        assert (Hs0 : mapRtpSenderRtpReceiver room !! s0 = Some receiver)
          by (apply Hfwd; exists S; auto).
        rewrite lookup_insert_ne; [exact Hs0|].
        intros ->. rewrite Hnone in Hs0. discriminate.
    + rewrite lookup_insert_ne in HS0 by congruence.
      assert (Hs0 : mapRtpSenderRtpReceiver room !! s0 = Some r0)
        by (apply Hfwd; exists S0; auto).
      rewrite lookup_insert_ne; [exact Hs0|].
      intros ->. rewrite Hnone in Hs0. discriminate.
  - intros s0 r0 H. simpl in *. unfold forwards. simpl.
    destruct (decide (s0 = s)) as [->|Hne].
    + rewrite lookup_insert_eq in H. inversion H; subst r0.
      eexists. rewrite lookup_insert_eq. split; [reflexivity | set_solver].
    + rewrite lookup_insert_ne in H by congruence.
      destruct (Hbwd _ _ H) as (S0 & HS0 & Hin).
      destruct (decide (r0 = receiver)) as [->|Hr].
      * eexists. rewrite lookup_insert_eq. split; [reflexivity|].
        rewrite HS0. simpl. set_solver.
      * exists S0. rewrite lookup_insert_ne by congruence. auto.
Qed.

Lemma routing_inv_sender_closed room sender :
  routing_inv room -> routing_inv (onPeerRtpSenderClosed room sender).
Proof.
  intros [Hfwd Hbwd]. unfold onPeerRtpSenderClosed.
  destruct (mapRtpSenderRtpReceiver room !! sender) as [receiver|] eqn:Hs;
    [|split; assumption].
  split.
  - intros r0 s0 (S0 & HS0 & Hin). simpl in *.
    destruct (decide (r0 = receiver)) as [->|Hne].
    + rewrite lookup_alter_eq in HS0.
      destruct (mapRtpReceiverRtpSenders room !! receiver) as [S|] eqn:HS;
        simpl in HS0; [|discriminate].
      inversion HS0; subst S0; clear HS0.
      apply elem_of_difference in Hin as [Hin Hneq].
      rewrite lookup_delete_ne by set_solver.
      apply Hfwd. exists S. auto.
    + rewrite lookup_alter_ne in HS0 by congruence.
      assert (Hs0 : mapRtpSenderRtpReceiver room !! s0 = Some r0)
        by (apply Hfwd; exists S0; auto).
      rewrite lookup_delete_ne; [exact Hs0|].
      intros ->. rewrite Hs in Hs0. congruence.
  - intros s0 r0 H. simpl in *. unfold forwards. simpl.
    destruct (decide (s0 = sender)) as [->|Hne].
    + rewrite lookup_delete_eq in H. discriminate.
    + rewrite lookup_delete_ne in H by congruence.
      destruct (Hbwd _ _ H) as (S0 & HS0 & Hin).
      destruct (decide (r0 = receiver)) as [->|Hr].
      * exists (S0 ∖ {[sender]}). rewrite lookup_alter_eq, HS0.
        split; [reflexivity | set_solver].
      * exists S0. rewrite lookup_alter_ne by congruence. auto.
Qed.

Lemma routing_inv_fold {A} (f : Room -> A -> Room) (l : list A) room :
  (forall room a, routing_inv room -> routing_inv (f room a)) ->
  routing_inv room -> routing_inv (fold_left f l room).
Proof.
  intros Hf. revert room. induction l as [|a l IH]; intros room H; simpl.
  - exact H.
  - apply IH, Hf, H.
Qed.

(** Closing a list of senders removes exactly them from sender->receiver. *)
Lemma senders_closed_lookup (l : list nat) room s :
  mapRtpSenderRtpReceiver (fold_left onPeerRtpSenderClosed l room) !! s =
  if decide (s ∈ l) then None else mapRtpSenderRtpReceiver room !! s.
Proof.
  revert room. induction l as [|a l IH]; intros room; simpl.
  - destruct (decide (s ∈ [])) as [Hin|_]; [inversion Hin | reflexivity].
  - rewrite IH.
    assert (Hstep : mapRtpSenderRtpReceiver (onPeerRtpSenderClosed room a) !! s
                    = if decide (s = a) then None
                      else mapRtpSenderRtpReceiver room !! s).
    { unfold onPeerRtpSenderClosed.
      destruct (mapRtpSenderRtpReceiver room !! a) eqn:Ha; simpl.
      - destruct (decide (s = a)) as [->|Hne].
        + apply lookup_delete_eq.
        + apply lookup_delete_ne. congruence.
      - destruct (decide (s = a)) as [->|Hne]; [exact Ha | reflexivity]. }
    rewrite Hstep.
    destruct (decide (s ∈ l)) as [Hin|Hnin].
    + rewrite decide_True by (right; exact Hin). reflexivity.
    + destruct (decide (s = a)) as [->|Hne].
      * rewrite decide_True by left. reflexivity.
      * rewrite decide_False; [reflexivity|].
        intros Hc. apply elem_of_cons in Hc as [Hc|Hc]; contradiction.
Qed.

Lemma routing_inv_receiver_closed room receiver :
  routing_inv room -> routing_inv (onPeerRtpReceiverClosed room receiver).
Proof.
  intros Hinv. unfold onPeerRtpReceiverClosed.
  set (room' := match mapRtpReceiverRtpSenders room !! receiver with
                | Some senders =>
                    fold_left onPeerRtpSenderClosed (elements senders) room
                | None => room
                end).
  assert (Hinv' : routing_inv room').
  { unfold room'. destruct (mapRtpReceiverRtpSenders room !! receiver);
      [apply routing_inv_fold; auto using routing_inv_sender_closed | exact Hinv]. }
  assert (Hgone : forall s, mapRtpSenderRtpReceiver room' !! s <> Some receiver).
  { intros s Hs. destruct Hinv as [_ Hbwd]. unfold room' in Hs.
    destruct (mapRtpReceiverRtpSenders room !! receiver) as [S|] eqn:HS.
    - rewrite senders_closed_lookup in Hs.
      destruct (decide (s ∈ elements S)) as [Hin|Hnin]; [discriminate|].
      destruct (Hbwd _ _ Hs) as (S0 & HS0 & Hin).
      rewrite HS in HS0. inversion HS0; subst S0.
      apply Hnin, elem_of_elements, Hin.
    - destruct (Hbwd _ _ Hs) as (S0 & HS0 & _). congruence. }
  clearbody room'. destruct Hinv' as [Hfwd Hbwd].
  split.
  - intros r0 s0 (S0 & HS0 & Hin). simpl in *.
    destruct (decide (r0 = receiver)) as [->|Hne].
    + rewrite lookup_delete_eq in HS0. discriminate.
    + rewrite lookup_delete_ne in HS0 by congruence.
      apply Hfwd. exists S0. auto.
  - intros s0 r0 H. simpl in *. unfold forwards. simpl.
    destruct (Hbwd _ _ H) as (S0 & HS0 & Hin).
    exists S0. split; [|exact Hin].
    rewrite lookup_delete_ne; [exact HS0|].
    intros ->. exact (Hgone _ H).
Qed.

Lemma routing_inv_apply room op :
  routing_inv room -> routing_inv (apply room op).
Proof.
  intros Hinv. destruct op as [id|id r|r|s|id]; simpl.
  - unfold AddPeer. destruct (peers room !! id); exact Hinv.
  - unfold onPeerRtpReceiverParameters.
    apply routing_inv_fold; [intros; apply routing_inv_add_sender; assumption|].
    exact Hinv.
  - apply routing_inv_receiver_closed, Hinv.
  - apply routing_inv_sender_closed, Hinv.
  - unfold onPeerClosed. destruct (peers room !! id) as [peer|]; [|exact Hinv].
    set (room1 := fold_left onPeerRtpReceiverClosed _ room).
    assert (H1 : routing_inv room1)
      by (apply routing_inv_fold; auto using routing_inv_receiver_closed).
    set (room2 := fold_left onPeerRtpSenderClosed _ room1).
    assert (H2 : routing_inv room2)
      by (apply routing_inv_fold; auto using routing_inv_sender_closed).
    exact H2.
Qed.

Lemma routing_inv_reach ops : routing_inv (reach ops).
Proof.
  unfold reach. apply routing_inv_fold; [apply routing_inv_apply|].
  apply routing_inv_new.
Qed.
End RoomFacts.

(* ===================================================================== *)
(** * The properties stated by the specification                         *)
(* ===================================================================== *)

Section RtpClaims.
Import Utils RtpPacket RtpLayout.
Local Open Scope Z_scope.

(** An accepted buffer fits its header, and Parse built [view] on it. *)
Lemma Parse_Packet_view data p :
  Parse data = Packet p ->
  header_fits data = true /\
  0 <= payloadLength p /\
  (payloadPadding p = 0 \/
   (0 < payloadPadding p /\ payloadPadding p = last_byte data)) /\
  payload_offset data + payloadLength p + payloadPadding p = total_len data /\
  p = view data (payloadLength p) (payloadPadding p).
Proof.
  intros HP.
  destruct (header_fits data) eqn:Hfit.
  2: { destruct (Parse_not_header_fits data Hfit) as [why Hw]. congruence. }
  assert (Hreg : 0 <= region_size data).
  { unfold region_size. unfold header_fits in Hfit.
    apply andb_true_iff in Hfit as [Hfit Hext].
    apply andb_true_iff in Hfit as [_ Hcsrc]. apply Z.leb_le in Hcsrc.
    unfold payload_offset, ext_bytes in *.
    destruct (extension data 0); [|lia].
    apply andb_true_iff in Hext as [_ H2]. apply Z.leb_le in H2. lia. }
  pose proof (Get1Byte_range data (total_len data - 1)) as Hlb.
  fold (last_byte data) in Hlb.
  rewrite (Parse_header_fits data Hfit) in HP.
  unfold region_size in *.
  destruct (padding data 0).
  - destruct (_ =? 0) eqn:H0 in HP; [discriminate|].
    destruct (last_byte data =? 0) eqn:H1 in HP; [discriminate|].
    destruct (_ <? last_byte data) eqn:H2 in HP; [discriminate|].
    bool_to_Prop. inversion HP; subst p; clear HP.
    cbn [view new_RtpPacket payloadLength payloadPadding].
    split; [reflexivity|]. split; [lia|]. split; [right; lia|].
    split; [lia | reflexivity].
  - inversion HP; subst p; clear HP.
    cbn [view new_RtpPacket payloadLength payloadPadding].
    split; [reflexivity|]. split; [lia|]. split; [left; reflexivity|].
    split; [lia | reflexivity].
Qed.

(** C1, as amended.  For every buffer that Parse accepts, Serialize on
    the untouched packet succeeds and yields a buffer of the same length
    that agrees with the input on the header, the CSRC list, the
    extension, the payload and the final padding-count byte.  The padding
    bytes before the final one are not copied; when there is at most one
    padding byte the output is the input. *)
Theorem rtp_serialize_parse_outside_padding heap data p :
  Parse data = Packet p ->
  exists p',
    Serialize heap p = Serialized p' /\
    List.length (GetRaw p') = List.length data /\
    (forall i, 0 <= i < total_len data ->
               i < total_len data - payloadPadding p
               \/ i = total_len data - 1 ->
               byte_at (GetRaw p') i = byte_at data i) /\
    (payloadPadding p <= 1 -> GetRaw p' = data).
Proof.
  intros HP.
  destruct (Parse_Packet_view data p HP) as (Hfit & Hlen & Hpad & Hsum & Hp).
  destruct (Serialize_view heap data _ _ Hfit Hlen Hpad Hsum)
    as (p' & HS & HL & HB).
  exists p'. rewrite Hp at 1. unfold GetRaw.
  split; [exact HS|]. split; [exact HL|]. split; [exact HB|].
  intros Hle. apply byte_at_ext; [exact HL|].
  intros i Hi. rewrite HL in Hi. fold (total_len data) in Hi.
  apply HB; [exact Hi | lia].
Qed.

Lemma rtp_serialize_parse_witness :
  exists p, Parse Samples.rtp_plain = Packet p /\
  exists p', Serialize (fun _ => xff) p = Serialized p' /\
             GetRaw p' = Samples.rtp_plain.
Proof.
  eexists. split; [vm_compute; reflexivity|].
  match goal with
  | |- exists p', Serialize ?h ?p = _ /\ _ =>
      destruct (rtp_serialize_parse_outside_padding h Samples.rtp_plain p
                  eq_refl) as (p' & HS & _ & _ & Hall)
  end.
  exists p'. split; [exact HS|]. apply Hall. vm_compute. discriminate.
Defined.

(** C1, as stated, fails.  With two padding bytes the byte before the
    padding count is never written by Serialize: on zero-filled storage
    the output differs from the input, and no content of the fresh
    storage lets two inputs that differ in that byte both round-trip. *)
Lemma rtp_roundtrip_padding_counterexample :
  ~ serialize_parse_identity (fun _ => x00) (Samples.rtp_padded x07) /\
  ~ (exists heap,
       serialize_parse_identity heap (Samples.rtp_padded x07) /\
       serialize_parse_identity heap (Samples.rtp_padded x08)).
Proof.
  split.
  - intros H. destruct (H _ eq_refl) as (p' & HS & Hraw).
    vm_compute in HS. inversion HS; subst p'; clear HS.
    vm_compute in Hraw. discriminate.
  - intros (heap & H7 & H8).
    destruct (H7 _ eq_refl) as (p7 & HS7 & Hraw7).
    destruct (H8 _ eq_refl) as (p8 & HS8 & Hraw8).
    cbv in HS7, HS8.
    inversion HS7; subst p7; clear HS7.
    inversion HS8; subst p8; clear HS8.
    cbv in Hraw7, Hraw8.
    inversion Hraw7 as [H7']. inversion Hraw8 as [H8'].
    rewrite H7' in H8'. discriminate.
Qed.

(** When the CSRC list or the extension announced by an RTP header does
    not fit, what is left after them has negative size. *)
Lemma region_size_unfit data :
  IsRtp data = true -> header_fits data = false -> region_size data < 0.
Proof.
  unfold header_fits, region_size, payload_offset, ext_bytes.
  intros Hrtp Hfit. rewrite Hrtp in Hfit. simpl in Hfit.
  pose proof (extension_length_nonneg data (12 + csrc_bytes data)) as Hel.
  destruct (12 + csrc_bytes data <=? total_len data) eqn:Hc;
    simpl in Hfit; bool_to_Prop.
  - destruct (extension data 0); [|discriminate].
    bool_to_Prop; lia.
  - destruct (extension data 0); lia.
Qed.

(** C2.  For every buffer that has an RTP header with the padding flag set,
    Parse returns nullptr exactly when the region after header, CSRC list
    and extension is empty, when the last byte p is 0, or when p exceeds
    the size of that region (which covers a CSRC list or an extension that
    does not fit: nothing is left after them); otherwise it accepts, with
    payload length the region size minus p. *)
Theorem rtp_parse_padding_decision data :
  IsRtp data = true ->
  padding data 0 = true ->
  let region := region_size data in
  let p := last_byte data in
  ((exists why, Parse data = Nullptr why)
     <-> (region = 0 \/ p = 0 \/ region < p)) /\
  (~ (region = 0 \/ p = 0 \/ region < p) ->
   exists pkt, Parse data = Packet pkt /\
               payloadLength pkt = region - p /\
               payloadPadding pkt = p).
Proof.
  intros Hrtp Hpad region p.
  destruct (header_fits data) eqn:Hfit.
  - pose proof (Parse_header_fits data Hfit) as HP. rewrite Hpad in HP.
    fold region in HP. fold p in HP.
    destruct (region =? 0) eqn:H0; bool_to_Prop.
    { split; [split; [auto | eauto] | intros Hn; exfalso; auto]. }
    destruct (p =? 0) eqn:H1; bool_to_Prop.
    { split; [split; [auto | eauto] | intros Hn; exfalso; auto]. }
    destruct (region <? p) eqn:H2; bool_to_Prop.
    { split; [split; [auto | eauto] | intros Hn; exfalso; auto]. }
    split.
    + split.
      * intros [why Hw]. congruence.
      * intros [H|[H|H]]; lia.
    + intros _. eexists. split; [exact HP|]. split; reflexivity.
  - pose proof (region_size_unfit data Hrtp Hfit) as Hneg. fold region in Hneg.
    pose proof (Get1Byte_range data (total_len data - 1)) as Hp.
    fold (last_byte data) in Hp. fold p in Hp.
    split.
    + split; [intros _; right; right; lia|].
      intros _. apply Parse_not_header_fits. exact Hfit.
    + intros Hn. exfalso. apply Hn. right. right. lia.
Qed.

Lemma rtp_parse_padding_decision_witness :
  IsRtp (Samples.rtp_padded x07) = true /\
  padding (Samples.rtp_padded x07) 0 = true /\
  (exists pkt, Parse (Samples.rtp_padded x07) = Packet pkt /\
               payloadLength pkt = 1 /\ payloadPadding pkt = 2) /\
  IsRtp Samples.rtp_padding_no_room = true /\
  padding Samples.rtp_padding_no_room 0 = true /\
  (exists why, Parse Samples.rtp_padding_no_room = Nullptr why).
Proof.
  split; [reflexivity|]. split; [reflexivity|]. split.
  - apply (proj2 (rtp_parse_padding_decision (Samples.rtp_padded x07)
                    eq_refl eq_refl)).
    vm_compute. intros [H|[H|H]]; discriminate.
  - split; [reflexivity|]. split; [reflexivity|].
    apply (proj1 (rtp_parse_padding_decision Samples.rtp_padding_no_room
                    eq_refl eq_refl)).
    left. reflexivity.
Defined.

(** C8.  For every buffer that Parse accepts, the 12 header bytes, the
    CSRC bytes, the extension bytes (4 plus the value, when the extension
    flag is set), the payload length and the padding length add up to the
    length of the input; and neither assertion of Parse can fire, on any
    input. *)
Theorem rtp_parse_accounting data :
  (forall p, Parse data = Packet p ->
             12 + 4 * csrc_count data 0
             + (if extension data 0
                then 4 + 4 * extension_length data (12 + 4 * csrc_count data 0)
                else 0)
             + payloadLength p + payloadPadding p
             = Z.of_nat (List.length data)) /\
  (forall a, Parse data <> ParseAbort a).
Proof.
  split.
  - intros p HP.
    destruct (Parse_Packet_view data p HP) as (_ & _ & _ & Hsum & _).
    exact Hsum.
  - intros a HA.
    destruct (header_fits data) eqn:Hfit.
    + rewrite (Parse_header_fits data Hfit) in HA.
      repeat match type of HA with
             | (if ?c then _ else _) = _ => destruct c
             end; discriminate.
    + destruct (Parse_not_header_fits data Hfit) as [why Hw]. congruence.
Qed.

Lemma rtp_parse_accounting_witness :
  exists p, Parse Samples.rtp_full = Packet p /\
            12 + 4 * 1 + (4 + 4 * 1) + payloadLength p + payloadPadding p
            = 27.
Proof.
  eexists. split; [vm_compute; reflexivity|].
  exact (proj1 (rtp_parse_accounting Samples.rtp_full) _ eq_refl).
Defined.
End RtpClaims.

Section ByeClaims.
Import Utils ByePacket.
Local Open Scope Z_scope.

(** What Parse does deliver: a datagram without SSRCs is accepted, and
    the announced SSRCs come out in order. *)
Example bye_parse_empty :
  Parse Samples.bye_empty = Some {| ssrcs := []; reason := [] |}.
Proof. reflexivity. Qed.

Example bye_parse_two_ssrcs :
  Parse Samples.bye_two_ssrcs
  = Some {| ssrcs := [4369; 8738]; reason := [] |}.
Proof. reflexivity. Qed.

(** C3.  A BYE with one SSRC followed by the reason of length 3 (b, y, e)
    is accepted with its SSRC, but the reason string is not delivered:
    the post-decrement of the [uint8_t] counter in the loop condition
    leaves it at 255 once all SSRCs are read, so the test [count == 0]
    that guards the reason is false. *)
Theorem bye_parse_drops_reason :
  Parse Samples.bye_with_reason
  = Some {| ssrcs := [4369]; reason := [] |} /\
  Parse_loop Samples.bye_with_reason 12 1 4 new_ByePacket
  = Some (255, 8, {| ssrcs := [4369]; reason := [] |}).
Proof. split; reflexivity. Qed.

(** C7.  Serialize pads with zero bytes up to a multiple of four: with
    [offset] the offset reached after the common header, the SSRCs and
    the reason (congruent to the unpadded size), the returned size is
    [offset + (-offset) mod 4] (computed in [size_t], so literally that sum
    as long as it stays below 2^64), it is a multiple of 4, every byte from
    [offset] up to the returned size is 0 in the output buffer, and no
    other byte is touched by the padding. *)
Theorem bye_serialize_padding PS p data :
  let before := Serialize_fields PS p data in
  let offset := snd before in
  let pad := (- offset) mod 4 in
  let out := Serialize PS p data in
  size_t offset = size_t (unpadded_size (snd (PS p data)) p) /\
  0 <= pad < 4 /\
  snd out = size_t (offset + pad) /\
  (0 <= offset -> offset + pad < 2 ^ 64 -> snd out = offset + pad) /\
  snd out mod 4 = 0 /\
  (forall i, 0 <= i < pad -> fst out (size_t (offset + i)) = x00) /\
  (forall j, (forall i, 0 <= i < pad -> j <> size_t (offset + i)) ->
             fst out j = fst before j).
Proof.
  intros before offset pad out.
  assert (Hout : out = (zero_padding (fst before) offset pad,
                        size_t (offset + pad))).
  { unfold out, Serialize. fold before.
    destruct before as [d o] eqn:Hb. unfold offset, pad. simpl.
    rewrite padding_value. reflexivity. }
  rewrite Hout. simpl.
  split; [apply Serialize_fields_offset|].
  assert (Hpad : 0 <= pad < 4) by (apply Z.mod_pos_bound; lia).
  split; [exact Hpad|].
  split; [reflexivity|].
  split; [intros H0 Hmax; unfold size_t; apply Z.mod_small; lia|].
  split; [apply padded_aligned|].
  split.
  - intros i Hi. apply zero_padding_hit. exact Hi.
  - intros j Hj. apply zero_padding_miss. exact Hj.
Qed.

Lemma bye_serialize_padding_witness :
  let p := {| ssrcs := [4369]; reason := [x62; x79] |} in
  let out := Serialize Packet_Serialize_header p (fun _ => xff) in
  snd out = 12 /\ fst out 11 = x00 /\ fst out 12 = xff.
Proof.
  intros p out. unfold out.
  destruct (bye_serialize_padding Packet_Serialize_header p (fun _ => xff))
    as (_ & _ & _ & Hsize & _ & Hzero & Hkeep).
  split; [apply Hsize; vm_compute; [discriminate | reflexivity]|]. split.
  - apply (Hzero 0). vm_compute. split; [discriminate | reflexivity].
  - rewrite (Hkeep 12); [reflexivity|].
    intros i Hi.
    change (0 <= i < 1) in Hi. assert (i = 0) by lia. subst i.
    vm_compute. discriminate.
Defined.
End ByeClaims.

Section SocketClaims.
Import Utils UnixStreamSocket.
Local Open Scope Z_scope.

(** C4, as amended.  A write that completes with UV_EPIPE or UV_ENOTCONN
    on a socket that is not yet closing leaves the error flag as it was
    and starts closing: reading stops and, unless an error or a
    disconnect of the peer was recorded before, a graceful shutdown is
    requested, whose completion closes the handle; otherwise the handle
    is closed directly.  Every other non-zero status records the error
    flag and closes the handle directly. *)
Theorem write_error_closes uv error s :
  isClosing s = false ->
  read_stop_err uv = 0 -> shutdown_err uv = 0 ->
  error <> 0 ->
  (error = UV_EPIPE \/ error = UV_ENOTCONN ->
   on_write uv error s =
     Returns (set_isClosing true s)
       (if negb (hasError s) && negb (isClosedByPeer s)
        then [uv_read_stop; uv_shutdown]
        else [uv_read_stop; uv_close]) /\
   hasError (set_isClosing true s) = hasError s /\
   forall status,
     onUvShutdown status (set_isClosing true s)
     = Returns (set_isClosing true s) [uv_close]) /\
  (error <> UV_EPIPE -> error <> UV_ENOTCONN ->
   on_write uv error s =
     Returns (set_isClosing true (set_hasError true s))
       [uv_read_stop; uv_close]).
Proof.
  intros Hc Hrs Hsh Hne.
  destruct s as [bs buf bdl c p e]. simpl in Hc. subst c.
  unfold on_write, onUvWriteError, Close.
  replace (error =? 0) with false by (symmetry; apply Z.eqb_neq; exact Hne).
  cbn [isClosing set_isClosing set_hasError hasError isClosedByPeer
       bufferSize buffer bufferDataLen].
  rewrite Hrs, Hsh. simpl negb.
  split.
  - intros Herr.
    replace ((error =? UV_EPIPE) || (error =? UV_ENOTCONN)) with true
      by (symmetry; apply orb_true_iff;
          destruct Herr as [-> | ->]; [left | right]; reflexivity).
    split; [destruct e, p; reflexivity|].
    split; [reflexivity | intros; reflexivity].
  - intros H1 H2.
    replace ((error =? UV_EPIPE) || (error =? UV_ENOTCONN)) with false
      by (symmetry; apply orb_false_iff; split; apply Z.eqb_neq; assumption).
    reflexivity.
Qed.

Lemma write_error_closes_witness :
  let s := new_UnixStreamSocket 262144 in
  on_write (uv_ok 0) UV_ENOTCONN s
  = Returns (set_isClosing true s) [uv_read_stop; uv_shutdown] /\
  on_write (uv_ok 0) UV_ECANCELED s
  = Returns (set_isClosing true (set_hasError true s))
      [uv_read_stop; uv_close].
Proof.
  intros s.
  destruct (write_error_closes (uv_ok 0) UV_ENOTCONN s
              eq_refl eq_refl eq_refl ltac:(discriminate)) as [H _].
  destruct (write_error_closes (uv_ok 0) UV_ECANCELED s
              eq_refl eq_refl eq_refl ltac:(discriminate)) as [_ H'].
  split.
  - exact (proj1 (H (or_intror eq_refl))).
  - apply H'; discriminate.
Defined.

(** C4, as stated, fails.  On a freshly constructed socket a write that
    completes with UV_EPIPE leaves [hasError] false, and Close takes the
    graceful path: it requests uv_shutdown and does not call uv_close. *)
Lemma write_epipe_counterexample :
  exists s' calls,
    on_write (uv_ok 0) UV_EPIPE (new_UnixStreamSocket 262144)
    = Returns s' calls /\
    hasError s' = false /\
    calls = [uv_read_stop; uv_shutdown] /\
    ~ In uv_close calls.
Proof.
  eexists. eexists. split; [reflexivity|].
  split; [reflexivity|]. split; [reflexivity|].
  intros [H|[H|[]]]; discriminate.
Qed.

(** C6.  On the event loop, starting from a constructed socket and as
    long as the process does not abort: the owner has been notified of
    the close at most once, and exactly once when the close callback of
    the handle has run; the argument of the notification tells whether
    the first thing that made the socket close was a disconnect of the
    peer; once anything made the socket close, libuv's pending callbacks
    lead to that single notification; and when the object is deleted
    libuv has no read, shutdown or close callback left to deliver, so
    that nothing can notify the owner again (every request is counted, so
    this rests on the isClosing guard of Close). *)
Theorem socket_closed_notified_once bs evs l :
  run evs (start bs) = Some l ->
  aborted l = false ->
  let by_peer := match first_trigger evs with
                 | Some b => b
                 | None => false
                 end in
  closed_notifications (trace l) = (if deleted l then [by_peer] else []) /\
  (deleted l = true -> first_trigger evs <> None) /\
  (first_trigger evs <> None -> deleted l = false ->
   exists l', run (drain l) l = Some l' /\ aborted l' = false /\
              deleted l' = true /\
              closed_notifications (trace l') = [by_peer]) /\
  (deleted l = true ->
   reading l = false /\ shutdown_req l = 0%nat /\ close_req l = 0%nat /\
   forall uv e l', step uv e l = Some l' ->
                   trace l' = trace l /\ deleted l' = true).
Proof.
  intros Hrun Hab by_peer.
  pose proof (phase_run evs [] (start bs) l (phase_start bs) Hrun) as Hph.
  simpl in Hph. unfold by_peer.
  destruct (first_trigger evs) as [b|] eqn:Hft.
  - split; [|split; [|split]].
    + unfold phase in Hph. rewrite Hab in Hph.
      destruct Hph as (_ & _ & _ & [(Hd & Htr & _)|(Hd & Htr & _)]);
        rewrite Hd, Htr; reflexivity.
    + intros _. discriminate.
    + intros _ Hd. apply phase_drain; assumption.
    + intros Hd. apply (phase_deleted b); assumption.
  - unfold phase in Hph. rewrite Hab in Hph.
    destruct Hph as (_ & _ & _ & _ & _ & _ & Hd & Htr).
    rewrite Hd, Htr.
    split; [reflexivity|]. split; [discriminate|].
    split; [congruence | discriminate].
Qed.

Lemma socket_closed_notified_once_witness :
  (exists l,
     run [(uv_ok 0, ReadCb UV_EOF); (uv_ok 0, OwnerClose); (uv_ok 0, CloseCb)]
         (start 262144)
     = Some l /\
     closed_notifications (trace l) = [true] /\
     close_req l = 0%nat /\ step (uv_ok 0) CloseCb l = None) /\
  (exists l1 l2,
     run [(uv_ok 1, OwnerWrite [x31; x3a]); (uv_ok 0, OwnerClose);
          (uv_ok 0, OwnerClose)]
         (start 262144) = Some l1 /\
     closed_notifications (trace l1) = [] /\
     run (drain l1) l1 = Some l2 /\
     closed_notifications (trace l2) = [false]).
Proof.
  split.
  - destruct (run [(uv_ok 0, ReadCb UV_EOF); (uv_ok 0, OwnerClose);
                   (uv_ok 0, CloseCb)]
                (start 262144)) as [l|] eqn:Hrun;
      [|vm_compute in Hrun; discriminate].
    exists l. split; [reflexivity|].
    assert (Hl : aborted l = false /\ deleted l = true)
      by (vm_compute in Hrun; inversion Hrun; split; reflexivity).
    destruct Hl as [Hab Hdel].
    destruct (socket_closed_notified_once _ _ _ Hrun Hab)
      as (Hone & _ & _ & Hgone).
    rewrite Hdel in Hone. split; [exact Hone|].
    destruct (Hgone Hdel) as (_ & _ & Hcl & _).
    split; [exact Hcl|].
    unfold step. rewrite Hab, Hcl. reflexivity.
  - destruct (run [(uv_ok 1, OwnerWrite [x31; x3a]); (uv_ok 0, OwnerClose);
                   (uv_ok 0, OwnerClose)]
                (start 262144)) as [l1|] eqn:Hrun;
      [|vm_compute in Hrun; discriminate].
    assert (Hl : aborted l1 = false /\ deleted l1 = false)
      by (vm_compute in Hrun; inversion Hrun; split; reflexivity).
    destruct Hl as [Hab Hdel].
    destruct (socket_closed_notified_once _ _ _ Hrun Hab)
      as (Hnone & _ & Hlive & _).
    rewrite Hdel in Hnone.
    destruct (Hlive ltac:(discriminate) Hdel)
      as (l2 & Hdrain & _ & _ & Hone).
    exists l1, l2.
    split; [reflexivity|]. split; [exact Hnone|].
    split; [exact Hdrain | exact Hone].
Defined.

(** C9.  A call to Write on a socket that is closing, or with no bytes,
    returns at once: no call is made into libuv and the object is
    unchanged. *)
Theorem write_after_close_is_noop uv data s :
  isClosing s = true \/ List.length data = 0%nat ->
  Write uv data s = Returns s [].
Proof.
  intros [Hc|Hlen]; unfold Write.
  - rewrite Hc. reflexivity.
  - rewrite Hlen. destruct (isClosing s); reflexivity.
Qed.

Lemma write_after_close_is_noop_witness :
  Write (uv_ok 2) [x31; x3a] (mkSocket 262144 None 0 true false false)
  = Returns (mkSocket 262144 None 0 true false false) [] /\
  Write (uv_ok 0) [] (new_UnixStreamSocket 262144)
  = Returns (new_UnixStreamSocket 262144) [].
Proof.
  split.
  - apply write_after_close_is_noop. left. reflexivity.
  - apply write_after_close_is_noop. right. reflexivity.
Defined.

(** No method but the allocation callback touches the receive buffer or
    its size. *)
Lemma Close_keeps_buffer uv s s' calls :
  Close uv s = Returns s' calls ->
  buffer s' = buffer s /\ bufferSize s' = bufferSize s /\
  bufferDataLen s' = bufferDataLen s.
Proof.
  unfold Close. intros H.
  destruct (isClosing s); [inversion H; subst; auto|].
  destruct (negb (read_stop_err uv =? 0)); [discriminate|].
  destruct (negb (hasError _) && negb (isClosedByPeer _)).
  - destruct (negb (shutdown_err uv =? 0)); [discriminate|].
    inversion H; subst. auto.
  - inversion H; subst. auto.
Qed.

Lemma onUvRead_keeps_buffer uv nread s s' calls :
  onUvRead uv nread s = Returns s' calls ->
  buffer s' = buffer s /\ bufferSize s' = bufferSize s.
Proof.
  unfold onUvRead. intros H.
  destruct (nread =? 0); [inversion H; subst; auto|].
  destruct (0 <? nread); [inversion H; subst; auto|].
  destruct ((nread =? UV_EOF) || (nread =? UV_ECONNRESET));
    apply Close_keeps_buffer in H as (Hb & Hs & _);
    rewrite Hb, Hs; auto.
Qed.

(** C10.  The constructor allocates nothing; the allocation callback
    allocates the receive buffer, of [bufferSize] bytes, when there is
    none and keeps it otherwise, touches no other field, and offers libuv
    the space that starts at [buffer + bufferDataLen], of length
    [bufferSize - bufferDataLen] when [bufferDataLen < bufferSize] and of
    length 0 otherwise.  The offered space lies inside the stored buffer,
    a read of at most that many bytes keeps [bufferDataLen] within
    [bufferSize], and no read callback replaces or resizes the buffer. *)
Theorem read_alloc_within_buffer heap suggested_size s :
  let '(s', buf) := onUvReadAlloc heap suggested_size s in
  (buffer (new_UnixStreamSocket (bufferSize s)) = None /\
   buffer_sized (new_UnixStreamSocket (bufferSize s))) /\
  s' = set_buffer
         (Some (match buffer s with
                | Some b => b
                | None => new_array heap (bufferSize s)
                end)) s /\
  (buffer s' = Some (match buffer s with
                     | Some b => b
                     | None => new_array heap (bufferSize s)
                     end) /\
   bufferSize s' = bufferSize s /\ bufferDataLen s' = bufferDataLen s /\
   isClosing s' = isClosing s /\ isClosedByPeer s' = isClosedByPeer s /\
   hasError s' = hasError s) /\
  base buf = bufferDataLen s /\
  len buf = (if bufferDataLen s <? bufferSize s
             then bufferSize s - bufferDataLen s else 0) /\
  (0 <= bufferDataLen s ->
   forall k, base buf <= k < base buf + len buf -> 0 <= k < bufferSize s) /\
  (0 <= bufferSize s -> buffer_sized s ->
   buffer_sized s' /\
   exists b, buffer s' = Some b /\
             Z.of_nat (List.length b) = bufferSize s /\
             (0 <= bufferDataLen s ->
              forall k, base buf <= k < base buf + len buf ->
                        0 <= k < Z.of_nat (List.length b))) /\
  (forall uv nread,
     0 <= bufferDataLen s -> bufferSize s < 2 ^ 64 ->
     0 < nread <= len buf ->
     exists s'',
       onUvRead uv nread s' = Returns s'' [userOnUnixStreamRead] /\
       bufferDataLen s'' = bufferDataLen s + nread /\
       bufferDataLen s'' <= bufferSize s) /\
  (forall uv nread s'' calls,
     onUvRead uv nread s' = Returns s'' calls ->
     buffer s'' = buffer s' /\ bufferSize s'' = bufferSize s).
Proof.
  unfold onUvReadAlloc.
  set (b1 := match buffer s with
             | Some b => b
             | None => new_array heap (bufferSize s)
             end).
  assert (Hs : (match buffer s with
                | Some _ => s
                | None => set_buffer (Some (new_array heap (bufferSize s))) s
                end)
               = mkSocket (bufferSize s) (Some b1) (bufferDataLen s)
                   (isClosing s) (isClosedByPeer s) (hasError s)).
  { unfold b1. destruct s as [bs [b|] bdl c p e]; reflexivity. }
  rewrite Hs.
  assert (Hsized : 0 <= bufferSize s -> buffer_sized s ->
                   Z.of_nat (List.length b1) = bufferSize s).
  { unfold buffer_sized, b1. intros H0 Hok.
    destruct (buffer s); [exact Hok|].
    rewrite length_new_array. lia. }
  cbn [bufferDataLen bufferSize buffer isClosing isClosedByPeer hasError].
  assert (Hread : forall uv nread s'' calls,
            onUvRead uv nread
              (mkSocket (bufferSize s) (Some b1) (bufferDataLen s)
                 (isClosing s) (isClosedByPeer s) (hasError s))
            = Returns s'' calls ->
            buffer s'' = Some b1 /\ bufferSize s'' = bufferSize s).
  { intros uv nread s'' calls H.
    apply onUvRead_keeps_buffer in H. exact H. }
  destruct (bufferDataLen s <? bufferSize s) eqn:Hlt; cbn [base len];
    (split; [split; [reflexivity | exact I]|]);
    (split; [reflexivity|]);
    (split; [repeat split|]);
    (split; [reflexivity|]); (split; [reflexivity|]);
    bool_to_Prop; (split; [intros; lia|]).
  - split; [|split; [|exact Hread]].
    + intros H0 Hok. specialize (Hsized H0 Hok).
      split; [exact Hsized|].
      exists b1. split; [reflexivity|]. split; [exact Hsized|].
      intros; lia.
    + intros uv nread H0 Hmax Hn. unfold onUvRead.
      replace (nread =? 0) with false by (symmetry; apply Z.eqb_neq; lia).
      replace (0 <? nread) with true by (symmetry; apply Z.ltb_lt; lia).
      eexists. split; [reflexivity|].
      cbn [set_bufferDataLen bufferDataLen].
      unfold size_t. rewrite Z.mod_small by lia. lia.
  - split; [|split; [|exact Hread]].
    + intros H0 Hok. specialize (Hsized H0 Hok).
      split; [exact Hsized|].
      exists b1. split; [reflexivity|]. split; [exact Hsized|].
      intros; lia.
    + intros uv nread H0 Hmax Hn. lia.
Qed.

Lemma read_alloc_within_buffer_witness :
  let s := set_bufferDataLen 10 (new_UnixStreamSocket 16) in
  exists s' s'' b,
    onUvReadAlloc (fun _ => x00) 65536 s = (s', mkBuf 10 6) /\
    buffer s' = Some b /\ List.length b = 16%nat /\
    onUvRead (uv_ok 0) 6 s' = Returns s'' [userOnUnixStreamRead] /\
    bufferDataLen s'' = 16 /\ buffer s'' = Some b.
Proof.
  intros s.
  pose proof (read_alloc_within_buffer (fun _ => x00) 65536 s) as H.
  destruct (onUvReadAlloc (fun _ => x00) 65536 s) as [s' buf] eqn:Halloc.
  destruct H as (_ & _ & _ & _ & _ & _ & Hsized & Hread & Hkeep).
  assert (Hbuf : buf = mkBuf 10 6)
    by (vm_compute in Halloc; inversion Halloc; reflexivity).
  subst buf.
  destruct Hsized as (_ & b & Hb & Hlen & _);
    [vm_compute; discriminate | exact I |].
  destruct (Hread (uv_ok 0) 6) as (s'' & Hr & Hdl & _);
    [vm_compute; discriminate | reflexivity
     | split; [reflexivity | vm_compute; discriminate] |].
  destruct (Hkeep _ _ _ _ Hr) as [Hb'' _].
  exists s', s'', b. split; [reflexivity|]. split; [exact Hb|].
  split; [change (bufferSize s) with 16 in Hlen; lia|].
  split; [exact Hr|]. split; [exact Hdl|]. rewrite Hb''. exact Hb.
Defined.
End SocketClaims.

Section RoomClaims.
Import Room.

(** C5.  In every state that a room reaches by its operations (peer
    joined, receiver added, receiver closed, sender closed, peer closed),
    the two routing maps are symmetric, and every sender known to the
    room is in the set of exactly one receiver. *)
Theorem room_routing_symmetric ops :
  symmetric (reach ops) /\ in_exactly_one_set (reach ops).
Proof.
  destruct (routing_inv_reach ops) as [Hfwd Hbwd].
  split; [exact Hfwd|].
  intros sender [receiver Hs].
  exists receiver. split; [apply Hbwd; exact Hs|].
  intros receiver' Hf. apply Hfwd in Hf. congruence.
Qed.

Lemma room_routing_symmetric_witness :
  let room := reach [PeerJoin 1; PeerJoin 2; ReceiverAdded 1 7] in
  forwards room 7 0 /\ mapRtpSenderRtpReceiver room !! 0 = Some 7.
Proof.
  intros room.
  assert (Hf : forwards room 7 0).
  { exists {[0]}. split; [vm_compute; reflexivity | set_solver]. }
  split; [exact Hf|].
  exact (proj1 (room_routing_symmetric
                  [PeerJoin 1; PeerJoin 2; ReceiverAdded 1 7]) 7 0 Hf).
Defined.
End RoomClaims.

(* ===================================================================== *)
(** * Further properties of the code                                      *)
(* ===================================================================== *)

Section RtpExtras.
Import Utils RtpPacket RtpLayout RtpPacketClone RtpAccept.
Local Open Scope Z_scope.

Lemma header_fits_bounds data :
  header_fits data = true ->
  12 <= total_len data /\
  12 + csrc_bytes data <= total_len data /\
  12 <= payload_offset data <= total_len data /\
  (extension data 0 = true ->
   12 + csrc_bytes data + 4 <= payload_offset data).
Proof.
  intros Hfit.
  pose proof (csrc_count_nonneg data 0) as Hcc.
  pose proof (extension_length_nonneg data (12 + csrc_bytes data)) as Hel.
  unfold header_fits, IsRtp, sizeof_Header in Hfit.
  fold (total_len data) in Hfit.
  unfold payload_offset, ext_bytes, csrc_bytes in *.
  destruct (extension data 0); bool_to_Prop; repeat split; intros; lia.
Qed.

(** X1.  Parse accepts exactly the buffers whose header, CSRC list and
    extension fit and whose padding count, when the padding flag is set, is
    at least 1 and at most the size of the region after them.  For those
    it returns the view with that payload and padding; every other buffer
    is discarded with nullptr. *)
Theorem rtp_parse_accepts data :
  (accepted data = true ->
   Parse data
   = Packet (view data (region_size data - padding_length data)
               (padding_length data))) /\
  (accepted data = false -> exists why, Parse data = Nullptr why).
Proof.
  unfold accepted, padding_ok, padding_length.
  destruct (header_fits data) eqn:Hfit; simpl.
  - rewrite (Parse_header_fits data Hfit).
    pose proof (header_fits_bounds data Hfit) as (_ & _ & Hpo & _).
    pose proof (Get1Byte_range data (total_len data - 1)) as Hlb.
    fold (last_byte data) in Hlb.
    destruct (padding data 0).
    + split; intros H; bool_to_Prop.
      * replace (region_size data =? 0) with false
          by (symmetry; apply Z.eqb_neq; lia).
        replace (last_byte data =? 0) with false
          by (symmetry; apply Z.eqb_neq; lia).
        replace (region_size data <? last_byte data) with false
          by (symmetry; apply Z.ltb_ge; lia).
        reflexivity.
      * replace (last_byte data =? 0) with true
          by (symmetry; apply Z.eqb_eq; lia).
        destruct (region_size data =? 0); eauto.
      * destruct (region_size data =? 0); [eauto|].
        destruct (last_byte data =? 0); [eauto|].
        replace (region_size data <? last_byte data) with true
          by (symmetry; apply Z.ltb_lt; lia).
        eauto.
    + split; [intros _ | discriminate].
      rewrite Z.sub_0_r. reflexivity.
  - split; [discriminate|]. intros _. apply Parse_not_header_fits, Hfit.
Qed.

Lemma rtp_parse_accepts_witness :
  accepted Samples.rtp_full = true /\
  Parse Samples.rtp_full = Packet (view Samples.rtp_full 1 2) /\
  accepted Samples.rtp_padding_no_room = false /\
  exists why, Parse Samples.rtp_padding_no_room = Nullptr why.
Proof.
  split; [reflexivity|]. split.
  - exact (proj1 (rtp_parse_accepts Samples.rtp_full) eq_refl).
  - split; [reflexivity|].
    exact (proj2 (rtp_parse_accepts Samples.rtp_padding_no_room) eq_refl).
Defined.

(** X2.  An accepted packet points into the received buffer only: the
    CSRC list starts at byte 12 and ends inside the buffer, the extension
    header follows it and its value ends inside the buffer, payload and
    padding end exactly at the end of the buffer, and the payload pointer
    is null exactly when the payload is empty. *)
Theorem rtp_parse_view_in_bounds data p :
  Parse data = Packet p ->
  raw p = data /\ length p = total_len data /\ header p = 0 /\
  0 <= payloadLength p /\ 0 <= payloadPadding p <= 255 /\
  (forall c, csrcList p = Some c ->
             c = 12 /\ 0 < csrc_count data 0 /\
             c + 4 * csrc_count data 0 <= total_len data) /\
  (csrcList p = None -> csrc_count data 0 = 0) /\
  (forall e, extensionHeader p = Some e ->
             e = 12 + 4 * csrc_count data 0 /\
             e + 4 + 4 * extension_length data e <= total_len data) /\
  (forall q, payload p = Some q ->
             12 <= q /\ 0 < payloadLength p /\
             q + payloadLength p + payloadPadding p = total_len data) /\
  (payload p = None -> payloadLength p = 0).
Proof.
  intros HP.
  destruct (Parse_Packet_view data p HP) as (Hfit & Hlen & Hpad & Hsum & Hp).
  pose proof (header_fits_bounds data Hfit) as (H12 & Hcs & Hpo & Hext).
  pose proof (csrc_count_nonneg data 0) as Hcc.
  pose proof (Get1Byte_range data (total_len data - 1)) as Hlb.
  fold (last_byte data) in Hlb.
  rewrite Hp. unfold view, new_RtpPacket.
  cbn [raw length header payloadLength payloadPadding csrcList
       extensionHeader payload].
  unfold csrc_bytes in *.
  split; [reflexivity|]. split; [reflexivity|]. split; [reflexivity|].
  split; [exact Hlen|]. split; [lia|].
  split; [|split; [|split; [|split]]].
  - intros c Hc. destruct (csrc_count data 0 =? 0) eqn:H0; [discriminate|].
    bool_to_Prop. inversion Hc; subst c. unfold sizeof_Header. lia.
  - intros Hc. destruct (csrc_count data 0 =? 0) eqn:H0; [|discriminate].
    bool_to_Prop. exact H0.
  - intros e He. destruct (extension data 0) eqn:Hx; [|discriminate].
    inversion He; subst e. split; [reflexivity|].
    unfold payload_offset, ext_bytes, csrc_bytes in Hpo. rewrite Hx in Hpo.
    lia.
  - intros q Hq. destruct (payloadLength p =? 0) eqn:H0; [discriminate|].
    bool_to_Prop. inversion Hq; subst q. lia.
  - intros Hq. destruct (payloadLength p =? 0) eqn:H0; [|discriminate].
    bool_to_Prop. exact H0.
Qed.

Lemma rtp_parse_view_in_bounds_witness :
  exists p, Parse Samples.rtp_full = Packet p /\
            csrcList p = Some 12 /\ extensionHeader p = Some 16 /\
            payload p = Some 24 /\
            24 + payloadLength p + payloadPadding p = 27.
Proof.
  eexists. split; [vm_compute; reflexivity|].
  match goal with
  | |- csrcList ?p = _ /\ _ =>
      destruct (rtp_parse_view_in_bounds Samples.rtp_full p eq_refl)
        as (_ & _ & _ & _ & _ & _ & _ & _ & Hq & _)
  end.
  split; [reflexivity|]. split; [reflexivity|]. split; [reflexivity|].
  exact (proj2 (proj2 (Hq 24 eq_refl))).
Defined.
End RtpExtras.

Section RtpCloneExtras.
Import Utils RtpPacket RtpLayout RtpPacketClone RtpAccept.
Local Open Scope Z_scope.

Lemma csrc_count_byte0 data data' h :
  byte_at data' h = byte_at data h -> csrc_count data' h = csrc_count data h.
Proof. unfold csrc_count, Get1Byte. intros ->. reflexivity. Qed.

Lemma Clone_view buffer data plen pad :
  header_fits data = true ->
  0 <= plen ->
  pad = 0 \/ (0 < pad /\ pad = last_byte data) ->
  payload_offset data + plen + pad = total_len data ->
  total_len data <= Z.of_nat (List.length buffer) ->
  exists p',
    Clone buffer (view data plen pad) = Cloned p' /\
    same_fields (view data plen pad) p' /\
    isSerialized p' = false /\
    List.length (raw p') = List.length buffer /\
    (forall i, 0 <= i < total_len data -> byte_at (raw p') i = byte_at data i) /\
    (forall i, total_len data <= i -> byte_at (raw p') i = byte_at buffer i).
Proof.
  intros Hfit Hplen Hpad Hsum Hroom.
  pose proof (header_fits_bounds data Hfit) as (H12 & Hcs & Hpo & Hext).
  pose proof (csrc_count_nonneg data 0) as Hcc.
  pose proof (extension_length_nonneg data (12 + csrc_bytes data)) as Hel.
  assert (Hlast : pad <> 0 -> to_u8 pad = byte_at data (total_len data - 1))
    by (intros Hne; destruct Hpad as [Hpad|[_ Hpad]]; [lia|];
        rewrite Hpad; apply to_u8_u8).
  set (copy := memcpy buffer 0 data 0 (total_len data)).
  assert (Hcopy : forall i, byte_at copy i
                            = if (0 <=? i) && (i <? total_len data)
                              then byte_at data i else byte_at buffer i).
  { intros i. unfold copy. rewrite byte_at_memcpy.
    destruct (0 <=? i) eqn:H0, (i <? total_len data) eqn:H1; bool_to_Prop;
      simpl.
    - replace (i <? Z.of_nat (List.length buffer)) with true
        by (symmetry; apply Z.ltb_lt; lia).
      replace (i <? 0 + total_len data) with true
        by (symmetry; apply Z.ltb_lt; lia).
      replace (i <? 0) with false by (symmetry; apply Z.ltb_ge; lia).
      simpl. f_equal. lia.
    - replace (i <? 0 + total_len data) with false
        by (symmetry; apply Z.ltb_ge; lia).
      rewrite !andb_false_r. reflexivity.
    - destruct (i <? Z.of_nat (List.length buffer)); reflexivity.
    - destruct (i <? Z.of_nat (List.length buffer)); reflexivity. }
  assert (Hcc' : csrc_count copy 0 = csrc_count data 0).
  { apply csrc_count_byte0. rewrite Hcopy.
    replace (0 <? total_len data) with true by (symmetry; apply Z.ltb_lt; lia).
    reflexivity. }
  set (final := if pad =? 0 then copy
                else store copy (total_len data - 1) (to_u8 pad)).
  assert (Hfinal : forall i, byte_at final i = byte_at copy i).
  { intros i. unfold final. destruct (pad =? 0) eqn:Hp0; [reflexivity|].
    bool_to_Prop. rewrite byte_at_store.
    destruct ((i =? total_len data - 1) && (0 <=? i)
              && (i <? Z.of_nat (List.length copy))) eqn:Hc; [|reflexivity].
    bool_to_Prop. subst i. rewrite Hlast by exact Hp0. rewrite Hcopy.
    replace (0 <=? total_len data - 1) with true
      by (symmetry; apply Z.leb_le; lia).
    replace (total_len data - 1 <? total_len data) with true
      by (symmetry; apply Z.ltb_lt; lia).
    reflexivity. }
  assert (Hflen : List.length final = List.length buffer).
  { unfold final, copy. destruct (pad =? 0);
      rewrite ?length_store, length_memcpy; reflexivity. }
  exists (new_RtpPacket 0
            (if extension data 0 then Some (12 + csrc_bytes data) else None)
            (if plen =? 0 then None else Some (payload_offset data))
            plen pad final (total_len data)).
  split.
  - unfold Clone, GetLength, GetRaw, GetExtensionHeaderLength, view,
      new_RtpPacket, sizeof_Header.
    cbn [header csrcList extensionHeader payload payloadLength
         payloadPadding raw length isSerialized].
    fold copy. rewrite Hcc'.
    unfold final, payload_offset, ext_bytes, csrc_bytes in *.
    destruct (csrc_count data 0 =? 0) eqn:Hc0;
    destruct (extension data 0) eqn:Hx;
    destruct (plen =? 0) eqn:Hp0;
    destruct (pad =? 0) eqn:Hpad0; bool_to_Prop;
    cbv beta iota zeta;
    match goal with
    | |- context [if ?a =? ?b then _ else _] =>
        replace (a =? b) with true by (symmetry; apply Z.eqb_eq; lia)
    end;
    repeat match goal with
      | |- context [store copy ?i _] =>
          progress replace i with (total_len data - 1) by lia
      end.
    all: f_equal; f_equal; try reflexivity; try lia; f_equal; lia.
  - unfold same_fields, view, new_RtpPacket.
    cbn [header csrcList extensionHeader payload payloadLength
         payloadPadding raw length isSerialized].
    assert (Hcf : csrc_count final 0 = csrc_count data 0).
    { apply csrc_count_byte0. rewrite Hfinal, Hcopy.
      replace (0 <? total_len data) with true
        by (symmetry; apply Z.ltb_lt; lia).
      reflexivity. }
    rewrite Hcf.
    split; [repeat split|].
    split; [reflexivity|]. split; [exact Hflen|]. split.
    + intros i Hi. rewrite Hfinal, Hcopy.
      replace (0 <=? i) with true by (symmetry; apply Z.leb_le; lia).
      replace (i <? total_len data) with true
        by (symmetry; apply Z.ltb_lt; lia).
      reflexivity.
    + intros i Hi. rewrite Hfinal, Hcopy.
      replace (i <? total_len data) with false
        by (symmetry; apply Z.ltb_ge; lia).
      rewrite andb_false_r. reflexivity.
Qed.

(** X3.  Clone of a parsed packet into a buffer that is large enough
    never fails its assertion; the clone has the same field values, is not
    marked serialized, and its buffer holds the bytes of the original,
    padding bytes included, leaving the bytes beyond the packet as they
    were.  Into a buffer of the packet's size, the clone's buffer is the
    received buffer. *)
Theorem rtp_clone_copies buffer data p :
  Parse data = Packet p ->
  total_len data <= Z.of_nat (List.length buffer) ->
  exists p',
    Clone buffer p = Cloned p' /\
    same_fields p p' /\
    isSerialized p' = false /\
    List.length (raw p') = List.length buffer /\
    (forall i, 0 <= i < total_len data -> byte_at (raw p') i = byte_at data i) /\
    (forall i, total_len data <= i -> byte_at (raw p') i = byte_at buffer i) /\
    (List.length buffer = List.length data -> raw p' = data).
Proof.
  intros HP Hroom.
  destruct (Parse_Packet_view data p HP) as (Hfit & Hlen & Hpad & Hsum & Hp).
  destruct (Clone_view buffer data _ _ Hfit Hlen Hpad Hsum Hroom)
    as (p' & HC & HF & HS & HL & HB & HR).
  exists p'. rewrite Hp at 1 2.
  split; [exact HC|]. split; [exact HF|]. split; [exact HS|].
  split; [exact HL|]. split; [exact HB|]. split; [exact HR|].
  intros Heq. apply byte_at_ext; [congruence|].
  intros i Hi. apply HB. unfold total_len. lia.
Qed.

Lemma rtp_clone_copies_witness :
  exists p p',
    Parse (Samples.rtp_padded x07) = Packet p /\
    Clone (repeat xff 15) p = Cloned p' /\
    raw p' = Samples.rtp_padded x07.
Proof.
  eexists. 
  match goal with
  | |- exists p', Parse ?d = Packet ?p /\ _ =>
      assert (HP : Parse d = Packet p) by (vm_compute; reflexivity);
      destruct (rtp_clone_copies (repeat xff 15) d p HP)
        as (p' & HC & _ & _ & _ & _ & _ & HR);
      [vm_compute; discriminate|];
      exists p'; split; [exact HP|]; split; [exact HC|];
      apply HR; reflexivity
  end.
Defined.
End RtpCloneExtras.

Section RtpReparseExtras.
Import Utils RtpPacket RtpLayout RtpPacketClone RtpAccept.
Local Open Scope Z_scope.

Lemma Get1Byte_agree data data' i :
  byte_at data' i = byte_at data i -> Get1Byte data' i = Get1Byte data i.
Proof. unfold Get1Byte. intros ->. reflexivity. Qed.

(** Everything Parse looks at: the bytes before the payload and the last
    byte. *)
Lemma layout_agree data data' :
  List.length data' = List.length data ->
  header_fits data = true ->
  (forall i, 0 <= i < payload_offset data ->
             byte_at data' i = byte_at data i) ->
  byte_at data' (total_len data - 1) = byte_at data (total_len data - 1) ->
  csrc_count data' 0 = csrc_count data 0 /\
  extension data' 0 = extension data 0 /\
  padding data' 0 = padding data 0 /\
  payload_offset data' = payload_offset data /\
  header_fits data' = true /\
  region_size data' = region_size data /\
  last_byte data' = last_byte data.
Proof.
  intros Hlen Hfit Hhead Hlast.
  pose proof (header_fits_bounds data Hfit) as (H12 & Hcs & Hpo & Hext).
  assert (Htl : total_len data' = total_len data)
    by (unfold total_len; congruence).
  assert (H0 : Get1Byte data' 0 = Get1Byte data 0)
    by (apply Get1Byte_agree, Hhead; lia).
  assert (Hcc : csrc_count data' 0 = csrc_count data 0)
    by (unfold csrc_count; rewrite H0; reflexivity).
  assert (Hx : extension data' 0 = extension data 0)
    by (unfold extension; rewrite H0; reflexivity).
  assert (Hp : padding data' 0 = padding data 0)
    by (unfold padding; rewrite H0; reflexivity).
  assert (Hcb : csrc_bytes data' = csrc_bytes data)
    by (unfold csrc_bytes; rewrite Hcc; reflexivity).
  assert (Heb : ext_bytes data' = ext_bytes data).
  { unfold ext_bytes. rewrite Hx, Hcb.
    destruct (extension data 0) eqn:Hxd; [|reflexivity].
    specialize (Hext eq_refl).
    pose proof (csrc_count_nonneg data 0) as Hnn. unfold csrc_bytes in *.
    unfold extension_length, ntohs_at, Get2Bytes.
    rewrite !(Get1Byte_agree data data') by (apply Hhead; lia).
    reflexivity. }
  assert (Hpo' : payload_offset data' = payload_offset data)
    by (unfold payload_offset; rewrite Hcb, Heb; reflexivity).
  split; [exact Hcc|]. split; [exact Hx|]. split; [exact Hp|].
  split; [exact Hpo'|].
  split.
  - unfold header_fits in *. rewrite Hx, Hcb, Hpo', Htl.
    replace (IsRtp data') with (IsRtp data); [exact Hfit|].
    unfold IsRtp, version. rewrite Hlen, H0. reflexivity.
  - split.
    + unfold region_size. rewrite Htl, Hpo'. reflexivity.
    + unfold last_byte. rewrite Htl. apply Get1Byte_agree, Hlast.
Qed.

(** Parse on a buffer that agrees with [data] on everything Parse looks
    at gives the result for [data], pointing into the other buffer. *)
Lemma Parse_agree data data' :
  List.length data' = List.length data ->
  header_fits data = true ->
  (forall i, 0 <= i < payload_offset data ->
             byte_at data' i = byte_at data i) ->
  byte_at data' (total_len data - 1) = byte_at data (total_len data - 1) ->
  Parse data' = match Parse data with
                | Packet p => Packet (retarget data' p)
                | other => other
                end.
Proof.
  intros Hlen Hfit Hhead Hlast.
  destruct (layout_agree data data' Hlen Hfit Hhead Hlast)
    as (Hcc & Hx & Hpd & Hpo & Hfit' & Hreg & Hlb).
  rewrite (Parse_header_fits data Hfit), (Parse_header_fits data' Hfit').
  rewrite Hpd, Hreg, Hlb.
  assert (Hview : forall plen pad,
            view data' plen pad = retarget data' (view data plen pad)).
  { intros plen pad. unfold retarget, view, new_RtpPacket.
    cbn [header csrcList extensionHeader payload payloadLength
         payloadPadding raw length isSerialized].
    unfold csrc_bytes, total_len. rewrite Hcc, Hx, Hpo, Hlen. reflexivity. }
  destruct (padding data 0).
  - destruct (region_size data =? 0); [reflexivity|].
    destruct (last_byte data =? 0); [reflexivity|].
    destruct (region_size data <? last_byte data); [reflexivity|].
    rewrite Hview. reflexivity.
  - rewrite Hview. reflexivity.
Qed.

(** X4.  Parse looks at the header, the CSRC count, the extension length
    and the last byte only: a buffer of the same length that agrees with
    an accepted buffer before the payload offset and on the last byte is
    accepted with the same field values. *)
Theorem rtp_parse_ignores_payload data data' p :
  Parse data = Packet p ->
  List.length data' = List.length data ->
  (forall i, 0 <= i < payload_offset data ->
             byte_at data' i = byte_at data i) ->
  byte_at data' (total_len data - 1) = byte_at data (total_len data - 1) ->
  exists q, Parse data' = Packet q /\ same_fields p q /\ raw q = data'.
Proof.
  intros HP Hlen Hhead Hlast.
  destruct (Parse_Packet_view data p HP) as (Hfit & _).
  pose proof (Parse_agree data data' Hlen Hfit Hhead Hlast) as HP'.
  rewrite HP in HP'.
  exists (retarget data' p). split; [exact HP'|].
  unfold same_fields, retarget.
  cbn [header csrcList extensionHeader payload payloadLength payloadPadding
       raw length].
  repeat split.
Qed.

Lemma rtp_parse_ignores_payload_witness :
  exists p q,
    Parse (Samples.rtp_padded x07) = Packet p /\
    Parse (Samples.rtp_padded x08) = Packet q /\
    same_fields p q.
Proof.
  eexists.
  match goal with
  | |- exists q, Parse ?d = Packet ?p /\ _ =>
      assert (HP : Parse d = Packet p) by (vm_compute; reflexivity);
      destruct (rtp_parse_ignores_payload d (Samples.rtp_padded x08) p HP)
        as (q & HQ & HF & _)
  end.
  - reflexivity.
  - intros i Hi. change (0 <= i < 12) in Hi.
    assert (Hc : i = 0 \/ i = 1 \/ i = 2 \/ i = 3 \/ i = 4 \/ i = 5 \/ i = 6
                 \/ i = 7 \/ i = 8 \/ i = 9 \/ i = 10 \/ i = 11) by lia.
    repeat (destruct Hc as [->|Hc]; [reflexivity|]). subst i. reflexivity.
  - reflexivity.
  - exists q. split; [exact HP|]. split; [exact HQ | exact HF].
Defined.

Lemma Serialize_view_fields heap data plen pad p' :
  header_fits data = true ->
  0 <= plen ->
  0 <= pad ->
  payload_offset data + plen + pad = total_len data ->
  Serialize heap (view data plen pad) = Serialized p' ->
  same_fields (view data plen pad) p' /\ isSerialized p' = true.
Proof.
  intros Hfit Hplen Hpad Hsum.
  pose proof (header_fits_bounds data Hfit) as (H12 & Hcs & Hpo & Hext).
  pose proof (csrc_count_nonneg data 0) as Hcc.
  pose proof (extension_length_nonneg data (12 + csrc_bytes data)) as Hel.
  unfold same_fields, view, new_RtpPacket, payload_offset, ext_bytes,
    sizeof_Header in *.
  set (len := total_len data) in *.
  destruct (csrc_count data 0 =? 0) eqn:Hc0;
  destruct (extension data 0) eqn:Hx;
  destruct (plen =? 0) eqn:Hp0;
  destruct (pad =? 0) eqn:Hpad0.
  all: unfold Serialize, sizeof_Header;
    cbn [header csrcList extensionHeader payload payloadLength
         payloadPadding raw length isSerialized];
    rewrite ?Hpad0, ?Hc0.
  all: bool_to_Prop.
  all: match goal with
       | |- context [new_array _ ?n] =>
           replace n with len by (unfold csrc_bytes in *; lia)
       end.
  all: rewrite ?csrc_count_copied_header by lia.
  all: match goal with
       | |- context [if ?a =? ?b then _ else _] =>
           replace (a =? b) with true
             by (symmetry; apply Z.eqb_eq; unfold csrc_bytes in *; lia)
       end.
  all: intros HS; inversion HS; subst p'; clear HS.
  all: cbn [header csrcList extensionHeader payload payloadLength
            payloadPadding raw length isSerialized].
  all: unfold csrc_bytes in *.
  all: repeat split; try reflexivity; f_equal; lia.
Qed.

(** X5.  Serialize of a parsed packet keeps every field value and marks
    the packet serialized, and parsing the serialized buffer again yields
    a packet with the same field values. *)
Theorem rtp_serialize_reparse heap data p p' :
  Parse data = Packet p ->
  Serialize heap p = Serialized p' ->
  same_fields p p' /\ isSerialized p' = true /\
  exists q, Parse (GetRaw p') = Packet q /\ same_fields p q.
Proof.
  intros HP HS.
  destruct (Parse_Packet_view data p HP) as (Hfit & Hpl & Hpad & Hsum & Hp).
  destruct (Serialize_view heap data _ _ Hfit Hpl Hpad Hsum)
    as (p1 & HS1 & HL & HB).
  rewrite <- Hp in HS1. rewrite HS in HS1. inversion HS1; subst p1; clear HS1.
  pose proof (header_fits_bounds data Hfit) as (H12 & Hcs & Hpo & Hext).
  assert (Hpadnn : 0 <= payloadPadding p) by (destruct Hpad; lia).
  destruct (Serialize_view_fields heap data _ _ p' Hfit Hpl Hpadnn Hsum)
    as [HF' HS']; [rewrite <- Hp; exact HS|].
  rewrite <- Hp in HF'.
  split; [exact HF'|]. split; [exact HS'|].
  assert (HQ : Parse (GetRaw p') = Packet (retarget (GetRaw p') p)).
  { rewrite (Parse_agree data (GetRaw p') HL Hfit), HP; [reflexivity | |].
    - intros i Hi. apply HB; lia.
    - apply HB; lia. }
  exists (retarget (GetRaw p') p). split; [exact HQ|].
  unfold same_fields, retarget.
  cbn [header csrcList extensionHeader payload payloadLength payloadPadding
       raw length].
  repeat split.
Qed.

Lemma rtp_serialize_reparse_witness :
  exists p p' q,
    Parse Samples.rtp_full = Packet p /\
    Serialize (fun _ => xff) p = Serialized p' /\
    Parse (GetRaw p') = Packet q /\ same_fields p q.
Proof.
  eexists. eexists.
  match goal with
  | |- exists q, Parse ?d = Packet ?p /\ Serialize ?h _ = Serialized ?p' /\ _ =>
      assert (HP : Parse d = Packet p) by (vm_compute; reflexivity);
      assert (HS : Serialize h p = Serialized p') by (vm_compute; reflexivity);
      destruct (rtp_serialize_reparse h d p p' HP HS)
        as (_ & _ & q & HQ & HF);
      exists q; split; [exact HP|]; split; [exact HS|];
      split; [exact HQ | exact HF]
  end.
Defined.
End RtpReparseExtras.

Section ByeExtras.
Import Utils ByePacket.
Local Open Scope Z_scope.

(** The packet after [k] more SSRCs were read from [offset] on. *)
Lemma Parse_loop_general data n : forall offset packet,
  0 <= offset <= Z.of_nat (List.length data) ->
  Z.of_nat (List.length data) < 2 ^ 64 ->
  let len := Z.of_nat (List.length data) in
  let avail := len - offset in
  let add k :=
    {| ssrcs := ssrcs packet
                ++ map (fun i => Get4Bytes data (offset + 4 * Z.of_nat i))
                       (seq 0 k);
       reason := reason packet |} in
  Parse_loop data len n offset packet =
    if 4 * Z.of_nat n <=? avail then Some (255, offset + 4 * Z.of_nat n, add n)
    else if avail mod 4 =? 0
         then Some (Z.of_nat n - 1 - avail / 4, len, add (Z.to_nat (avail / 4)))
         else None.
Proof.
  induction n as [|n IH]; intros offset packet Hoff Hmax len avail add.
  - cbn [Parse_loop]. replace (4 * Z.of_nat 0 <=? avail) with true
      by (symmetry; apply Z.leb_le; unfold avail, len; lia).
    unfold add. simpl. rewrite app_nil_r. destruct packet. simpl.
    repeat f_equal. lia.
  - cbn [Parse_loop]. fold len.
    assert (Hsz : size_t (len - offset) = avail)
      by (unfold size_t, avail, len; apply Z.mod_small; lia).
    rewrite Hsz.
    destruct (0 <? avail) eqn:Hpos; bool_to_Prop.
    + destruct (avail <? 4) eqn:Hlt; bool_to_Prop.
      * replace (4 * Z.of_nat (S n) <=? avail) with false
          by (symmetry; apply Z.leb_gt; lia).
        replace (avail mod 4 =? 0) with false; [reflexivity|].
        symmetry. apply Z.eqb_neq. rewrite Z.mod_small by lia. lia.
      * assert (Hoff4 : size_t (offset + 4) = offset + 4)
          by (unfold size_t; apply Z.mod_small; unfold avail, len in *; lia).
        rewrite Hoff4. unfold len.
        rewrite IH by (unfold avail, len in *; lia).
        fold len. replace (len - (offset + 4)) with (avail - 4)
          by (unfold avail; lia).
        assert (Hmod : (avail - 4) mod 4 = avail mod 4)
          by (Z.div_mod_to_equations; lia).
        assert (Hdiv : (avail - 4) / 4 = avail / 4 - 1)
          by (Z.div_mod_to_equations; lia).
        assert (Hd1 : 1 <= avail / 4) by (Z.div_mod_to_equations; lia).
        rewrite Hmod, Hdiv.
        assert (Hshift : forall k,
          ssrcs (AddSsrc (Get4Bytes data offset) packet)
          ++ map (fun i => Get4Bytes data (offset + 4 + 4 * Z.of_nat i))
                 (seq 0 k)
          = ssrcs packet
            ++ map (fun i => Get4Bytes data (offset + 4 * Z.of_nat i))
                   (seq 0 (S k))).
        { intros k. unfold AddSsrc. cbn [ssrcs]. rewrite <- app_assoc.
          f_equal. cbn [seq map app].
          f_equal; [f_equal; lia|].
          rewrite <- seq_shift, map_map. apply map_ext. intros i.
          f_equal. lia. }
        destruct (4 * Z.of_nat n <=? avail - 4) eqn:Hfit; bool_to_Prop.
        -- replace (4 * Z.of_nat (S n) <=? avail) with true
             by (symmetry; apply Z.leb_le; lia).
           unfold add. rewrite Hshift. cbn [reason AddSsrc].
           replace (offset + 4 + 4 * Z.of_nat n)
             with (offset + 4 * Z.of_nat (S n)) by lia.
           reflexivity.
        -- replace (4 * Z.of_nat (S n) <=? avail) with false
             by (symmetry; apply Z.leb_gt; lia).
           destruct (avail mod 4 =? 0); [|reflexivity].
           unfold add. rewrite Hshift. cbn [reason AddSsrc].
           replace (Z.to_nat (avail / 4)) with (S (Z.to_nat (avail / 4 - 1)))
             by lia.
           replace (Z.of_nat n - 1 - (avail / 4 - 1))
             with (Z.of_nat (S n) - 1 - avail / 4) by lia.
           reflexivity.
    + assert (Ha0 : avail = 0) by (unfold avail, len in *; lia).
      replace (4 * Z.of_nat (S n) <=? avail) with false
        by (symmetry; apply Z.leb_gt; lia).
      rewrite Ha0. simpl Z.modulo. simpl Z.eqb. cbv iota.
      unfold add. simpl. rewrite app_nil_r. destruct packet. simpl.
      change (0 / 4) with 0.
      replace (Z.of_nat (S n) - 1 - 0) with (Z.of_nat n) by lia.
      replace offset with len by (unfold avail in Ha0; lia).
      reflexivity.
Qed.

(** X6.  The result of ByePacket::Parse on a datagram of at least four
    bytes: it is rejected exactly when fewer SSRCs than announced are
    present and one to three bytes trail the last complete SSRC; otherwise
    it is accepted with the first min(count, (len - 4) / 4) SSRCs, read in
    network byte order and in order, and with an empty reason.  A datagram
    that announces more SSRCs than it holds but ends on an SSRC boundary
    is thus accepted with the SSRCs it holds. *)
Theorem bye_parse_result data :
  4 <= Z.of_nat (List.length data) < 2 ^ 64 ->
  let avail := Z.of_nat (List.length data) - 4 in
  Parse data =
    if (4 * count data <=? avail) || (avail mod 4 =? 0)
    then Some {| ssrcs :=
                   map (fun k => Get4Bytes data (4 + 4 * Z.of_nat k))
                       (seq 0 (Z.to_nat (Z.min (count data) (avail / 4))));
                 reason := [] |}
    else None.
Proof.
  intros Hlen avail.
  assert (Hc : 0 <= count data)
    by (unfold count; apply Z.land_nonneg; right; lia).
  unfold Parse, sizeof_CommonHeader.
  rewrite Parse_loop_general by lia. fold avail.
  rewrite Z2Nat.id by exact Hc. cbn [ssrcs reason new_ByePacket app].
  destruct (4 * count data <=? avail) eqn:Hfit; bool_to_Prop; simpl orb.
  - simpl. replace (Z.min (count data) (avail / 4)) with (count data)
      by (Z.div_mod_to_equations; lia).
    reflexivity.
  - destruct (avail mod 4 =? 0) eqn:Hmod; [|reflexivity]. bool_to_Prop.
    replace (Z.min (count data) (avail / 4)) with (avail / 4)
      by (Z.div_mod_to_equations; lia).
    destruct (count data - 1 - avail / 4 =? 0); [|reflexivity].
    replace (1 + _ <=? _) with false; [reflexivity|].
    symmetry. apply Z.leb_gt.
    pose proof (Get1Byte_range data (Z.of_nat (List.length data))).
    rewrite Z.sub_diag. change (size_t 0) with 0. lia.
Qed.

Lemma bye_parse_result_witness :
  Parse Samples.bye_two_ssrcs
  = Some {| ssrcs := [4369; 8738]; reason := [] |} /\
  Parse [x83; xcb; x00; x03; x00; x00; x11; x11]
  = Some {| ssrcs := [4369]; reason := [] |} /\
  Parse [x82; xcb; x00; x02; x00; x00; x11; x11; x00; x00] = None.
Proof.
  split; [|split].
  - rewrite bye_parse_result by (vm_compute; split; [discriminate | reflexivity]).
    reflexivity.
  - rewrite bye_parse_result by (vm_compute; split; [discriminate | reflexivity]).
    reflexivity.
  - rewrite bye_parse_result by (vm_compute; split; [discriminate | reflexivity]).
    reflexivity.
Defined.

Lemma Parse_loop_length data len n : forall offset packet c o p,
  Parse_loop data len n offset packet = Some (c, o, p) ->
  (List.length (ssrcs p) <= List.length (ssrcs packet) + n)%nat.
Proof.
  induction n as [|n IH]; intros offset packet c o p H; simpl in H.
  - inversion H; subst. lia.
  - destruct (0 <? size_t (len - offset)).
    + destruct (size_t (len - offset) <? 4); [discriminate|].
      apply IH in H. unfold AddSsrc in H. cbn [ssrcs] in H.
      rewrite length_app in H. simpl in H. lia.
    + inversion H; subst. lia.
Qed.

(** X7.  Whatever the input, a packet returned by ByePacket::Parse has an
    empty reason and no more SSRCs than the count field announces, which
    is at most 31. *)
Theorem bye_parse_no_reason_bounded_ssrcs data p :
  Parse data = Some p ->
  reason p = [] /\
  Z.of_nat (List.length (ssrcs p)) <= count data <= 31.
Proof.
  intros HP. split; [exact (Parse_reason_empty data p HP)|].
  assert (Hc : 0 <= count data <= 31).
  { unfold count. change 31 with (Z.ones 5) at 1 2.
    rewrite Z.land_ones by lia.
    pose proof (Z.mod_pos_bound (Get1Byte data 0) (2 ^ 5) ltac:(lia)).
    change (Z.ones 5) with 31. lia. }
  split; [|lia].
  unfold Parse in HP.
  destruct (Parse_loop _ _ _ _ _) as [[[c o] q]|] eqn:Hloop; [|discriminate].
  apply Parse_loop_length in Hloop. cbn [ssrcs new_ByePacket] in Hloop.
  assert (Hq : ssrcs p = ssrcs q).
  { destruct (c =? 0); [|inversion HP; reflexivity].
    destruct (_ <=? _); inversion HP; reflexivity. }
  rewrite Hq. simpl in Hloop. lia.
Qed.

Lemma bye_parse_no_reason_bounded_ssrcs_witness :
  exists p, Parse Samples.bye_with_reason = Some p /\
            reason p = [] /\ ssrcs p = [4369].
Proof.
  eexists. split; [vm_compute; reflexivity|].
  split; [|reflexivity].
  exact (proj1 (bye_parse_no_reason_bounded_ssrcs
                  Samples.bye_with_reason _ eq_refl)).
Defined.
End ByeExtras.

Section ByeSerializeExtras.
Import Utils ByePacket.
Local Open Scope Z_scope.




End ByeSerializeExtras.

Section SocketExtras.
Import Utils UnixStreamSocket SocketLifecycle.
Local Open Scope Z_scope.

Lemma lifecycle_app a b st :
  lifecycle st (a ++ b)
  = match lifecycle st a with
    | Some st' => lifecycle st' b
    | None => None
    end.
Proof.
  revert st. induction a as [|c a IH]; intros st; simpl; [reflexivity|].
  destruct (advance st c); [apply IH | reflexivity].
Qed.

Lemma on_track_step uv e l l' :
  on_track l -> step uv e l = Some l' -> on_track l'.
Proof.
  destruct l as [[bs buf bdl closing bypeer err] rd sh cl wr del ab tr].
  unfold on_track, step.
  cbn [aborted deleted socket reading shutdown_req close_req write_reqs
       trace isClosing isClosedByPeer hasError].
  intros (st & Hlife & Hst) Hstep.
  destruct ab; [discriminate|].
  specialize (Hst eq_refl).
  destruct st; cbn [stage_matches deleted socket isClosing reading
                    shutdown_req close_req] in Hst;
    try contradiction.
  - (* open *)
    destruct Hst as (-> & -> & -> & -> & ->).
    destruct e; simpl in Hstep; try discriminate.
    + inversion Hstep; subst; clear Hstep. unfold Close.
      cbn [isClosing isClosedByPeer hasError set_isClosing].
      repeat (match goal with
              | |- context [if ?c then _ else _] =>
                  lazymatch c with
                  | aborted _ => fail
                  | _ => destruct c eqn:?
                  end
              end; simpl);
        rewrite ?lifecycle_app, Hlife; simpl;
        eexists; (split; [reflexivity|]); simpl; intuition congruence.
    + inversion Hstep; subst; clear Hstep.
      unfold Write, Write_pending, Close, after.
      cbn [isClosing isClosedByPeer hasError set_isClosing].
      repeat (match goal with
              | |- context [if ?c then _ else _] =>
                  lazymatch c with
                  | aborted _ => fail
                  | _ => destruct c eqn:?
                  end
              end; simpl);
        rewrite ?lifecycle_app, Hlife; simpl;
        eexists; (split; [reflexivity|]); simpl; intuition congruence.
    + inversion Hstep; subst; clear Hstep.
      unfold onUvRead, Close.
      cbn [isClosing isClosedByPeer hasError set_isClosing set_hasError
           set_isClosedByPeer set_bufferDataLen].
      repeat (match goal with
              | |- context [if ?c then _ else _] =>
                  lazymatch c with
                  | aborted _ => fail
                  | _ => destruct c eqn:?
                  end
              end; simpl);
        rewrite ?lifecycle_app, Hlife; simpl;
        eexists; (split; [reflexivity|]); simpl; intuition congruence.
    + destruct wr; [discriminate|].
      inversion Hstep; subst; clear Hstep.
      unfold on_write, onUvWriteError, Close.
      cbn [isClosing isClosedByPeer hasError set_isClosing set_hasError].
      repeat (match goal with
              | |- context [if ?c then _ else _] =>
                  lazymatch c with
                  | aborted _ => fail
                  | _ => destruct c eqn:?
                  end
              end; simpl);
        rewrite ?lifecycle_app, Hlife; simpl;
        eexists; (split; [reflexivity|]); simpl; intuition congruence.
  - (* shutting down *)
    destruct Hst as (-> & -> & -> & -> & ->).
    destruct e; simpl in Hstep; try discriminate;
      try (destruct wr; [discriminate|]);
      inversion Hstep; subst; clear Hstep;
      unfold on_write, onUvWriteError; simpl;
      try destruct (status =? 0); simpl;
      rewrite ?lifecycle_app, Hlife; simpl;
      eexists; (split; [reflexivity|]); simpl; intuition congruence.
  - (* closing *)
    destruct Hst as (-> & -> & -> & -> & ->).
    destruct e; simpl in Hstep; try discriminate;
      try (destruct wr; [discriminate|]);
      inversion Hstep; subst; clear Hstep;
      unfold on_write, onUvWriteError; simpl;
      try destruct (status =? 0); simpl;
      rewrite ?lifecycle_app, Hlife; simpl;
      eexists; (split; [reflexivity|]); simpl; intuition congruence.
  - (* deleted: only a write completion can be pending *)
    destruct Hst as (-> & -> & -> & -> & ->).
    destruct e; simpl in Hstep; try discriminate.
    destruct wr; [discriminate|].
    inversion Hstep; subst; clear Hstep.
    unfold on_write, onUvWriteError; simpl.
    destruct (status =? 0); simpl;
      rewrite ?lifecycle_app, Hlife; simpl;
      (exists Deleted; split; [reflexivity|]); simpl; intuition congruence.
Qed.

Lemma on_track_run evs : forall l l',
  on_track l -> run evs l = Some l' -> on_track l'.
Proof.
  induction evs as [|[uv e] evs IH]; intros l l' Hl Hrun; simpl in Hrun.
  - inversion Hrun; subst. exact Hl.
  - destruct (step uv e l) as [l1|] eqn:Hstep; [|discriminate].
    apply (IH l1); [|exact Hrun]. eapply on_track_step; eassumption.
Qed.

Lemma lifecycle_late calls : forall st st',
  st <> Open -> lifecycle st calls = Some st' ->
  forallb after_stop calls = true /\
  (closes calls <= match st with
                   | Stopped | ShuttingDown => 1
                   | _ => 0
                   end)%nat.
Proof.
  induction calls as [|c calls IH]; intros st st' Hst Hl; simpl in *.
  - split; [reflexivity | destruct st; lia].
  - destruct (advance st c) as [st1|] eqn:Ha; [|discriminate].
    destruct st, c; simpl in Ha; try discriminate; try contradiction;
      inversion Ha; subst st1;
      match type of Hl with
      | lifecycle ?s calls = Some _ =>
          destruct (IH s st' ltac:(discriminate) Hl) as [Hf Hc]
      end;
      simpl in *; split; try assumption; lia.
Qed.

Lemma lifecycle_open_closes calls : forall st',
  lifecycle Open calls = Some st' -> (closes calls <= 1)%nat.
Proof.
  induction calls as [|c calls IH]; intros st' Hl; simpl in *; [lia|].
  destruct c; simpl in Hl; try discriminate;
    try (apply IH in Hl; exact Hl).
  destruct (lifecycle_late calls Stopped st' ltac:(discriminate) Hl) as [_ Hc].
  exact Hc.
Qed.

(** X9.  On the event loop the calls a socket makes follow one order,
    whatever the events and whatever libuv answers: writes and read
    notifications while the handle is open, then uv_read_stop once, then
    uv_shutdown at most once, then uv_close once, then the closed
    notification, then the deletion.  In particular uv_close is called at
    most once, and after uv_read_stop nothing is written and no read is
    notified. *)
Theorem socket_calls_follow_lifecycle bs evs l :
  run evs (start bs) = Some l ->
  (exists st, lifecycle Open (trace l) = Some st /\
              (aborted l = false -> stage_matches st l)) /\
  (closes (trace l) <= 1)%nat /\
  (forall before rest,
     trace l = before ++ uv_read_stop :: rest ->
     forallb after_stop rest = true).
Proof.
  intros Hrun.
  assert (H0 : on_track (start bs)).
  { exists Open. split; [reflexivity|]. intros _. simpl. intuition congruence. }
  pose proof (on_track_run evs _ _ H0 Hrun) as (st & Hlife & Hst).
  split; [exists st; split; assumption|].
  split; [eapply lifecycle_open_closes; exact Hlife|].
  intros before rest Htr. rewrite Htr, lifecycle_app in Hlife.
  destruct (lifecycle Open before) as [sb|]; [|discriminate].
  simpl in Hlife. destruct sb; simpl in Hlife; try discriminate.
  exact (proj1 (lifecycle_late rest Stopped st ltac:(discriminate) Hlife)).
Qed.

Lemma socket_calls_follow_lifecycle_witness :
  exists l,
    run [(uv_ok 1, OwnerWrite [x31; x3a]); (uv_ok 0, OwnerClose);
         (uv_ok 0, OwnerWrite [x32; x3a]); (uv_ok 0, WriteCb UV_ECANCELED);
         (uv_ok 0, ShutdownCb 0); (uv_ok 0, CloseCb)] (start 262144)
    = Some l /\
    trace l = [uv_try_write [x31; x3a]; uv_write [x3a]; uv_read_stop;
               uv_shutdown; uv_close; userOnUnixStreamSocketClosed false;
               delete_this] /\
    lifecycle Open (trace l) = Some Deleted /\
    (closes (trace l) <= 1)%nat.
Proof.
  destruct (run [(uv_ok 1, OwnerWrite [x31; x3a]); (uv_ok 0, OwnerClose);
                 (uv_ok 0, OwnerWrite [x32; x3a]);
                 (uv_ok 0, WriteCb UV_ECANCELED);
                 (uv_ok 0, ShutdownCb 0); (uv_ok 0, CloseCb)] (start 262144))
    as [l|] eqn:Hrun; [|vm_compute in Hrun; discriminate].
  exists l. split; [reflexivity|].
  destruct (socket_calls_follow_lifecycle _ _ _ Hrun) as (_ & Hc & _).
  assert (Htr : trace l = [uv_try_write [x31; x3a]; uv_write [x3a];
                           uv_read_stop; uv_shutdown; uv_close;
                           userOnUnixStreamSocketClosed false; delete_this])
    by (vm_compute in Hrun; inversion Hrun; reflexivity).
  split; [exact Htr|]. split; [rewrite Htr; reflexivity | exact Hc].
Defined.
End SocketExtras.

Section SocketMethodExtras.
Import Utils UnixStreamSocket SocketLifecycle.
Local Open Scope Z_scope.

(** X10.  Once Close has returned, the socket is closing, and a further
    Close, any Write and any write completion return at once without a
    call into libuv and without a change to the object. *)
Theorem close_returns_once uv s s' calls :
  Close uv s = Returns s' calls ->
  isClosing s' = true /\
  forall uv' data status,
    Close uv' s' = Returns s' [] /\
    Write uv' data s' = Returns s' [] /\
    on_write uv' status s' = Returns s' [].
Proof.
  unfold Close. intros H.
  assert (Hc : isClosing s' = true).
  { destruct (isClosing s) eqn:Hs.
    - inversion H; subst. exact Hs.
    - destruct (negb (read_stop_err uv =? 0)); [discriminate|].
      destruct (negb (hasError _) && negb (isClosedByPeer _)).
      + destruct (negb (shutdown_err uv =? 0)); [discriminate|].
        inversion H; subst. reflexivity.
      + inversion H; subst. reflexivity. }
  split; [exact Hc|]. intros uv' data status.
  unfold Write, on_write, onUvWriteError. rewrite Hc.
  split; [reflexivity|]. split; [reflexivity|].
  destruct (status =? 0); reflexivity.
Qed.

Lemma close_returns_once_witness :
  exists s',
    Close (uv_ok 0) (new_UnixStreamSocket 262144)
    = Returns s' [uv_read_stop; uv_shutdown] /\
    Close (uv_ok 0) s' = Returns s' [] /\
    Write (uv_ok 2) [x31; x3a] s' = Returns s' [].
Proof.
  eexists.
  match goal with
  | |- Close ?uv ?s = Returns ?s' ?c /\ _ =>
      assert (H : Close uv s = Returns s' c) by reflexivity;
      destruct (close_returns_once uv s s' c H) as [_ Hn];
      destruct (Hn (uv_ok 2) [x31; x3a] 0) as (H1 & H2 & _);
      split; [exact H|]; split; [reflexivity | exact H2]
  end.
Defined.

Lemma pending_store_skipn (data : list byte) (w : Z) :
  0 <= w <= Z.of_nat (List.length data) ->
  map (fun k => byte_at data (w + Z.of_nat k))
      (seq 0 (Z.to_nat (Z.of_nat (List.length data) - w)))
  = skipn (Z.to_nat w) data.
Proof.
  intros Hw. apply list_eq. intros i.
  rewrite list_lookup_fmap, lookup_drop.
  destruct (decide (i < Z.to_nat (Z.of_nat (List.length data) - w))%nat)
    as [Hi|Hi].
  - rewrite lookup_seq_lt by exact Hi. simpl.
    unfold byte_at.
    replace (w + Z.of_nat i <? 0) with false
      by (symmetry; apply Z.ltb_ge; lia).
    replace (Z.to_nat (w + Z.of_nat i)) with (Z.to_nat w + i)%nat by lia.
    destruct (lookup_lt_is_Some_2 data (Z.to_nat w + i)%nat ltac:(lia))
      as [b Hb].
    rewrite Hb. reflexivity.
  - rewrite lookup_seq_ge by lia. simpl.
    symmetry. apply lookup_ge_None. lia.
Qed.

(** X11.  Write on an open socket hands every byte of a non-empty message
    to libuv exactly once: when uv_try_write takes the whole message
    nothing is queued, when it takes the first w bytes the remaining bytes
    are queued with uv_write, and when it answers UV_EAGAIN or UV_ENOSYS
    the whole message is queued.  The object is unchanged. *)
Theorem write_hands_over_every_byte uv data s :
  isClosing s = false ->
  data <> [] ->
  Z.of_nat (List.length data) < 2 ^ 31 ->
  write_err uv = 0 ->
  let len := Z.of_nat (List.length data) in
  let w := try_write_written uv in
  (w = len -> Write uv data s = Returns s [uv_try_write data]) /\
  (0 <= w < len ->
   Write uv data s
   = Returns s [uv_try_write data; uv_write (skipn (Z.to_nat w) data)]) /\
  (w = UV_EAGAIN \/ w = UV_ENOSYS ->
   Write uv data s = Returns s [uv_try_write data; uv_write data]).
Proof.
  intros Hc Hne Hmax Herr len w.
  assert (Hlen : 0 < len) by (unfold len; destruct data; simpl; [congruence | lia]).
  assert (Hint : int_of_size_t len = len).
  { unfold int_of_size_t. rewrite Z.mod_small by (unfold len in *; lia).
    replace (len <? 2 ^ 31) with true by (symmetry; apply Z.ltb_lt; exact Hmax).
    reflexivity. }
  unfold Write, Write_pending. rewrite Hc, Herr. fold len. fold w.
  replace (len =? 0) with false by (symmetry; apply Z.eqb_neq; lia).
  rewrite Hint. cbn [negb Z.eqb].
  split; [|split].
  - intros ->. rewrite Z.eqb_refl. reflexivity.
  - intros Hw.
    replace (w =? len) with false by (symmetry; apply Z.eqb_neq; lia).
    replace ((w =? UV_EAGAIN) || (w =? UV_ENOSYS)) with false
      by (symmetry; apply orb_false_iff; unfold UV_EAGAIN, UV_ENOSYS;
          split; apply Z.eqb_neq; lia).
    replace (w <? 0) with false by (symmetry; apply Z.ltb_ge; lia).
    replace (size_t (len - w)) with (len - w)
      by (unfold size_t; rewrite Z.mod_small; lia).
    unfold len. rewrite pending_store_skipn by (fold len; lia). reflexivity.
  - intros Hw.
    replace (w =? len) with false
      by (symmetry; apply Z.eqb_neq;
          destruct Hw as [-> | ->]; unfold UV_EAGAIN, UV_ENOSYS; lia).
    replace ((w =? UV_EAGAIN) || (w =? UV_ENOSYS)) with true
      by (symmetry; apply orb_true_iff;
          destruct Hw as [-> | ->]; [left | right]; reflexivity).
    replace (size_t (len - 0)) with (len - 0)
      by (unfold size_t; rewrite Z.mod_small; lia).
    unfold len. rewrite pending_store_skipn by (fold len; lia). reflexivity.
Qed.

Lemma write_hands_over_every_byte_witness :
  let s := new_UnixStreamSocket 262144 in
  Write (uv_ok 3) [x31; x3a; x7b] s
  = Returns s [uv_try_write [x31; x3a; x7b]] /\
  Write (uv_ok 1) [x31; x3a; x7b] s
  = Returns s [uv_try_write [x31; x3a; x7b]; uv_write [x3a; x7b]] /\
  Write (uv_ok UV_EAGAIN) [x31; x3a; x7b] s
  = Returns s [uv_try_write [x31; x3a; x7b]; uv_write [x31; x3a; x7b]].
Proof.
  intros s.
  assert (H3 : forall n,
            let uv := uv_ok n in
            (try_write_written uv = 3 ->
             Write uv [x31; x3a; x7b] s
             = Returns s [uv_try_write [x31; x3a; x7b]]) /\
            (0 <= try_write_written uv < 3 ->
             Write uv [x31; x3a; x7b] s
             = Returns s [uv_try_write [x31; x3a; x7b];
                          uv_write (skipn (Z.to_nat (try_write_written uv))
                                      [x31; x3a; x7b])]) /\
            (try_write_written uv = UV_EAGAIN
             \/ try_write_written uv = UV_ENOSYS ->
             Write uv [x31; x3a; x7b] s
             = Returns s [uv_try_write [x31; x3a; x7b];
                          uv_write [x31; x3a; x7b]])).
  { intros n.
    apply (write_hands_over_every_byte (uv_ok n) [x31; x3a; x7b] s);
      [reflexivity | discriminate | reflexivity | reflexivity]. }
  split; [|split].
  - apply (proj1 (H3 3)). reflexivity.
  - apply (proj1 (proj2 (H3 1))). simpl. lia.
  - apply (proj2 (proj2 (H3 UV_EAGAIN))). left. reflexivity.
Defined.

(** X12.  A read callback with a negative status on an open socket closes
    the handle directly, never through uv_shutdown: UV_EOF and
    UV_ECONNRESET record that the peer closed, every other status records
    an error, and in both cases the calls are uv_read_stop and
    uv_close. *)
Theorem read_failure_closes_directly uv nread s :
  isClosing s = false ->
  nread < 0 ->
  read_stop_err uv = 0 ->
  let by_peer := (nread =? UV_EOF) || (nread =? UV_ECONNRESET) in
  onUvRead uv nread s
  = Returns (set_isClosing true
               (if by_peer then set_isClosedByPeer true s
                else set_hasError true s))
      [uv_read_stop; uv_close].
Proof.
  intros Hc Hn Hrs by_peer. unfold onUvRead, Close.
  replace (nread =? 0) with false by (symmetry; apply Z.eqb_neq; lia).
  replace (0 <? nread) with false by (symmetry; apply Z.ltb_ge; lia).
  fold by_peer. destruct s as [bs buf bdl c p e]. simpl in Hc. subst c.
  destruct by_peer;
    cbn [isClosing set_isClosedByPeer set_hasError set_isClosing hasError
         isClosedByPeer];
    rewrite Hrs; simpl.
  - rewrite andb_false_r. reflexivity.
  - reflexivity.
Qed.

Lemma read_failure_closes_directly_witness :
  let s := new_UnixStreamSocket 262144 in
  onUvRead (mkResults 0 UV_ENOTCONN 0 0) UV_EOF s
  = Returns (mkSocket 262144 None 0 true true false) [uv_read_stop; uv_close]
  /\
  onUvRead (uv_ok 0) UV_EPIPE s
  = Returns (mkSocket 262144 None 0 true false true) [uv_read_stop; uv_close].
Proof.
  intros s. split.
  - apply (read_failure_closes_directly (mkResults 0 UV_ENOTCONN 0 0)
             UV_EOF s); reflexivity.
  - apply (read_failure_closes_directly (uv_ok 0) UV_EPIPE s); reflexivity.
Defined.
End SocketMethodExtras.
